(** * todo-app: validated CRUD actions and the optimistic controller

    A shallow embedding of the server actions ([actions/todoAction.ts]),
    the table they act on ([db/schema.ts]), the client hooks ([useTodos],
    [useOptimisticUpdate], [useError]) and the [AddTodo] component, followed
    by the properties of the written specification stated over them.

    Layout: definitions first (one module per source unit), then the
    lemmas and theorems. *)

From Stdlib Require Import List Bool Arith NArith Lia Permutation.
From Stdlib Require Import Ascii String.
Import ListNotations.

Set Implicit Arguments.

(* ================================================================== *)
(** * JavaScript strings *)
(* ================================================================== *)

(** A JavaScript string is a sequence of UTF-16 code units; [.length]
    counts code units.  Literals of the source are ASCII and are written
    through [lit]. *)
Module JS.

Definition code_unit := N.
Definition jsstring := list code_unit.

Definition lit (s : string) : jsstring :=
  map N_of_ascii (list_ascii_of_string s).

Definition eqb (a b : jsstring) : bool :=
  if list_eq_dec N.eq_dec a b then true else false.

(** ECMAScript WhiteSpace and LineTerminator code points, the set that
    [String.prototype.trim] strips.  All of them lie in the BMP, so one
    code unit each. *)
Definition isWhiteSpace (c : code_unit) : bool :=
  ((c =? 0x9) || (c =? 0xA) || (c =? 0xB) || (c =? 0xC) || (c =? 0xD)
   || (c =? 0x20) || (c =? 0xA0) || (c =? 0x1680)
   || ((0x2000 <=? c) && (c <=? 0x200A))
   || (c =? 0x2028) || (c =? 0x2029) || (c =? 0x202F) || (c =? 0x205F)
   || (c =? 0x3000) || (c =? 0xFEFF))%N.

Fixpoint trimStart (s : jsstring) : jsstring :=
  match s with
  | [] => []
  | c :: r => if isWhiteSpace c then trimStart r else s
  end.

Fixpoint trimEnd (s : jsstring) : jsstring :=
  match s with
  | [] => []
  | c :: r =>
      match trimEnd r with
      | [] => if isWhiteSpace c then [] else [c]
      | r' => c :: r'
      end
  end.

(** [s.trim()] *)
Definition trim (s : jsstring) : jsstring := trimEnd (trimStart s).

(** ToBoolean on a string: only the empty string is falsy. *)
Definition truthy (s : jsstring) : bool :=
  match s with [] => false | _ :: _ => true end.

End JS.

Import JS.

(* ================================================================== *)
(** * Zod schemas of [actions/todoAction.ts] *)
(* ================================================================== *)

Module Zod.

(** The result of [schema.safeParse(input)].  The actions read nothing
    of an issue but its [message], so an issue is its message. *)
Inductive SafeParse (A : Type) : Type :=
| ParseSuccess (data : A)
| ParseError (issues : list string).
Arguments ParseSuccess {A} data.
Arguments ParseError {A} issues.

(** A schema maps the input to the (possibly rewritten) value and the
    issues its checks raised. *)
Definition finish {A} (r : A * list string) : SafeParse A :=
  match snd r with
  | [] => ParseSuccess (fst r)
  | _ :: _ => ParseError (snd r)
  end.

Definition max_text_length : nat := 500.

(** [z.string().trim().min(1, ..).max(500, ..)]: the trim rewrites the
    value, then both length checks look at the rewritten value. *)
Definition todoTextSchema (text : jsstring) : jsstring * list string :=
  let t := trim text in
  (t,
   (if List.length t <? 1 then ["Todo text cannot be empty"%string] else [])
   ++ (if max_text_length <? List.length t
       then ["Todo text must be less than 500 characters"%string] else [])).

Section WithUuidFormat.

(** [z.string().uuid()] tests the string against Zod's UUID pattern;
    the pattern belongs to the library and is taken as a parameter. *)
Variable isUuid : jsstring -> bool.

Definition todoIdSchema (id : jsstring) : jsstring * list string :=
  (id, if isUuid id then [] else ["Todo ID must be a valid UUID"%string]).

(** [z.object({ text })] *)
Definition addTodoSchema (text : jsstring) : jsstring * list string :=
  todoTextSchema text.

(** [z.object({ id, text })]: issues come in the order of the keys. *)
Definition editTodoSchema (id text : jsstring)
  : (jsstring * jsstring) * list string :=
  let i := todoIdSchema id in
  let t := todoTextSchema text in
  ((fst i, fst t), snd i ++ snd t).

(** [z.object({ id })] *)
Definition todoIdOnlySchema (id : jsstring) : jsstring * list string :=
  todoIdSchema id.

End WithUuidFormat.

(** The pattern of Zod 4 for [uuid()], used where a concrete identifier
    format is needed: groups of 8, 4, 4, 4 and 12 hexadecimal digits of
    either case, the third starting with a version digit 1 to 8 and the
    fourth with a variant digit 8, 9, a or b (of either case); or the nil
    uuid; or the max uuid in lower case. *)
Definition isHex (c : code_unit) : bool :=
  (((0x30 <=? c) && (c <=? 0x39)) || ((0x41 <=? c) && (c <=? 0x46))
   || ((0x61 <=? c) && (c <=? 0x66)))%N.

Fixpoint hexGroups (groups : list nat) (s : jsstring) : bool :=
  match groups with
  | [] => match s with [] => true | _ => false end
  | n :: rest =>
      forallb isHex (firstn n s) && (List.length (firstn n s) =? n)
      && match rest, skipn n s with
         | [], [] => true
         | _ :: _, c :: s' => (c =? 0x2D)%N && hexGroups rest s'
         | _, _ => false
         end
  end.

Definition isVersion (c : code_unit) : bool :=
  ((0x31 <=? c) && (c <=? 0x38))%N.

Definition isVariant (c : code_unit) : bool :=
  ((c =? 0x38) || (c =? 0x39) || (c =? 0x61) || (c =? 0x62)
   || (c =? 0x41) || (c =? 0x42))%N.

Definition uuidFormat (s : jsstring) : bool :=
  (hexGroups [8; 4; 4; 4; 12] s
   && isVersion (nth 14 s 0%N) && isVariant (nth 19 s 0%N))
  || JS.eqb s (lit "00000000-0000-0000-0000-000000000000")
  || JS.eqb s (lit "ffffffff-ffff-ffff-ffff-ffffffffffff").

End Zod.

Import Zod.

(* ================================================================== *)
(** * The [todo] table and the statements sent to it *)
(* ================================================================== *)

Module Db.

(** A row of [pgTable("todo", { id: uuid, text: text, done: boolean })],
    which is also [todoType] on the client. *)
Record todoType : Type := { id : jsstring; text : jsstring; done : bool }.

(** The statements the actions build with the query builder. *)
Inductive statement : Type :=
| SelectAll                                   (* db.select().from(todo) *)
| SelectById (key : jsstring)                 (* .where(eq(todo.id, key)).limit(1) *)
| InsertReturning (t : jsstring)              (* db.insert(todo).values({text}).returning() *)
| UpdateText (key : jsstring) (t : jsstring)  (* .set({ text }).where(eq(todo.id, key)) *)
| UpdateNotDone (key : jsstring)              (* .set({ done: not(todo.done) }).where(..) *)
| DeleteById (key : jsstring).                (* db.delete(todo).where(eq(todo.id, key)) *)

(** Everything a server action can read or write.  [table] holds the
    rows in the order a select without [ORDER BY] lists them: a new row,
    and the new version of an updated row, goes to the end.
    [faults] is the behaviour of the connection: the n-th statement sent
    fails with the given error when the n-th entry says so.  [statements]
    records each statement sent together with the error it raised, if
    any.  An error is the text of its [message]. *)
Record world : Type := {
  table : list todoType;
  faults : list (option string);
  statements : list (statement * option string);
  console : list (string * string);
  revalidated : list string;
  generated : nat
}.

(** A promise that may reject with an error, and one that cannot. *)
Inductive outcome (A : Type) : Type :=
| Returned (a : A)
| Thrown (e : string).
Arguments Returned {A} a.
Arguments Thrown {A} e.

Definition Async (A : Type) : Type := world -> outcome A * world.
Definition Settled (A : Type) : Type := world -> A * world.

Definition ret {A} (a : A) : Async A := fun w => (Returned a, w).

Definition bind {A B} (c : Async A) (k : A -> Async B) : Async B :=
  fun w =>
    match c w with
    | (Returned a, w') => k a w'
    | (Thrown e, w') => (Thrown e, w')
    end.

Definition tryCatch {A} (body : Async A) (handler : string -> Settled A)
  : Settled A :=
  fun w =>
    match body w with
    | (Returned a, w') => (a, w')
    | (Thrown e, w') => handler e w'
    end.

(** [console.error(label, error)] *)
Definition console_error (label : string) (error : string) (w : world)
  : world :=
  {| table := table w; faults := faults w; statements := statements w;
     console := console w ++ [(label, error)];
     revalidated := revalidated w; generated := generated w |}.

(** [revalidatePath(path)] *)
Definition revalidatePath (path : string) : Async unit :=
  fun w =>
    (Returned tt,
     {| table := table w; faults := faults w; statements := statements w;
        console := console w; revalidated := revalidated w ++ [path];
        generated := generated w |}).

Definition notDone (r : todoType) : todoType :=
  {| id := id r; text := text r; done := negb (done r) |}.

Definition withText (t : jsstring) (r : todoType) : todoType :=
  {| id := id r; text := t; done := done r |}.

(** [await <statement>]: consult the connection; when it is up, [run]
    gives the statement's result (or the error of the database) with the
    new table and generator count.  A statement that fails on the
    connection leaves the table as it was. *)
Definition send {A} (s : statement)
    (run : list todoType -> nat -> outcome A * list todoType * nat)
  : Async A :=
  fun w =>
    match hd None (faults w) with
    | Some e =>
        (Thrown e,
         {| table := table w; faults := tl (faults w);
            statements := statements w ++ [(s, Some e)];
            console := console w; revalidated := revalidated w;
            generated := generated w |})
    | None =>
        match run (table w) (generated w) with
        | (Returned a, table', n') =>
            (Returned a,
             {| table := table'; faults := tl (faults w);
                statements := statements w ++ [(s, None)];
                console := console w; revalidated := revalidated w;
                generated := n' |})
        | (Thrown e, table', n') =>
            (Thrown e,
             {| table := table'; faults := tl (faults w);
                statements := statements w ++ [(s, Some e)];
                console := console w; revalidated := revalidated w;
                generated := n' |})
        end
    end.

(** [db.select().from(todo)] *)
Definition selectAll : Async (list todoType) :=
  send SelectAll (fun rows n => (Returned rows, rows, n)).

(** What the database decides by itself, for the column types of the
    schema.
    - [uuidText]: the [id] column holds uuid values, not strings; an
      identifier is read as the uuid it denotes, and [uuidText] is the
      spelling under which the database gives that uuid back.  Two
      identifiers are the same uuid exactly when their [uuidText] agree
      (an upper-case spelling denotes the same uuid as the lower-case one).
    - [acceptsText]: whether the [text] column takes a value; a string that
      holds the code unit 0 is refused.
    - [gen_random_uuid]: [defaultRandom()], the n-th identifier drawn. *)
Record database : Type := {
  uuidText : jsstring -> jsstring;
  acceptsText : jsstring -> bool;
  gen_random_uuid : nat -> jsstring
}.

Section WithDatabase.

Variable pg : database.

(** [eq(todo.id, key)], evaluated by the database on uuid values. *)
Definition hasId (key : jsstring) (r : todoType) : bool :=
  JS.eqb (uuidText pg (id r)) (uuidText pg key).

(** An update writes a new version of every row it matches; a select
    lists the new versions after the rows that were left alone. *)
Definition updated (key : jsstring) (f : todoType -> todoType)
    (rows : list todoType) : list todoType :=
  filter (fun r => negb (hasId key r)) rows ++ map f (filter (hasId key) rows).

(** [db.select().from(todo).where(eq(todo.id, key)).limit(1)] *)
Definition selectById (key : jsstring) : Async (list todoType) :=
  send (SelectById key)
    (fun rows n => (Returned (firstn 1 (filter (hasId key) rows)), rows, n)).

(** [db.update(todo).set({ text: t }).where(eq(todo.id, key))] *)
Definition updateText (key t : jsstring) : Async unit :=
  send (UpdateText key t)
    (fun rows n =>
       if acceptsText pg t
       then (Returned tt, updated key (withText t) rows, n)
       else (Thrown "invalid byte sequence for encoding UTF8", rows, n)).

(** [db.update(todo).set({ done: not(todo.done) }).where(eq(todo.id, key))] *)
Definition updateNotDone (key : jsstring) : Async unit :=
  send (UpdateNotDone key)
    (fun rows n => (Returned tt, updated key notDone rows, n)).

(** [db.delete(todo).where(eq(todo.id, key))] *)
Definition deleteById (key : jsstring) : Async unit :=
  send (DeleteById key)
    (fun rows n =>
       (Returned tt, filter (fun r => negb (hasId key r)) rows, n)).

(** [db.insert(todo).values({ text: t }).returning()], read through
    the destructuring [const [newTodo] = ...]: one row goes in and
    that row comes back.  [id] is the primary key, [done] takes its
    default. *)
Definition insertReturning (t : jsstring) : Async todoType :=
  send (InsertReturning t)
    (fun rows n =>
       if acceptsText pg t
       then
         let r := {| id := gen_random_uuid pg n; text := t; done := false |} in
         if existsb (hasId (id r)) rows
         then (Thrown "duplicate key value violates unique constraint",
               rows, S n)
         else (Returned r, rows ++ [r], S n)
       else (Thrown "invalid byte sequence for encoding UTF8", rows, n)).

(** Whether a row with this key is in the table. *)
Definition present (key : jsstring) (w : world) : bool :=
  existsb (hasId key) (table w).

End WithDatabase.

(** The statements sent between two worlds of one run. *)
Definition issued (before after : world) : list (statement * option string) :=
  skipn (List.length (statements before)) (statements after).

End Db.

Import Db.

Notation "x <- c ;; k" := (Db.bind c (fun x => k))
  (at level 61, c at next level, right associativity).
Notation "c ;;; k" := (Db.bind c (fun _ => k))
  (at level 61, right associativity).

(* ================================================================== *)
(** * Server actions: [actions/todoAction.ts] *)
(* ================================================================== *)

Module Actions.

(** [type ActionResponse<T> = { success: true; data: T }
                              | { success: false; error: string }] *)
Inductive ActionResponse (T : Type) : Type :=
| Success (data : T)
| Failure (error : string).
Arguments Success {T} data.
Arguments Failure {T} error.

(** [validation.error.issues.map((err) => err.message).join(", ")] *)
Definition errorMessages (issues : list string) : string :=
  String.concat ", " issues.

Section WithEnvironment.

Variable isUuid : jsstring -> bool.
Variable pg : database.

Definition getData_body : Async (ActionResponse (list todoType)) :=
  data <- selectAll ;;
  ret (Success data).

Definition getData : Settled (ActionResponse (list todoType)) :=
  tryCatch getData_body
    (fun error w =>
       (Failure "Unable to load todos. Please try again later.",
        console_error "Error fetching todos:" error w)).

Definition addTodo_body (text : jsstring)
  : Async (ActionResponse todoType) :=
  match finish (addTodoSchema text) with
  | ParseError issues => ret (Failure (errorMessages issues))
  | ParseSuccess validText =>
      newTodo <- insertReturning pg validText ;;
      revalidatePath "/" ;;;
      ret (Success newTodo)
  end.

Definition addTodo (text : jsstring) : Settled (ActionResponse todoType) :=
  tryCatch (addTodo_body text)
    (fun error w =>
       (Failure "Unable to create todo. Please try again.",
        console_error "Error adding todo:" error w)).

Definition deleteTodo_body (id : jsstring) : Async (ActionResponse unit) :=
  match finish (todoIdOnlySchema isUuid id) with
  | ParseError issues => ret (Failure (errorMessages issues))
  | ParseSuccess validId =>
      existing <- selectById pg validId ;;
      if List.length existing =? 0
      then ret (Failure "Todo not found.")
      else
        deleteById pg validId ;;;
        revalidatePath "/" ;;;
        ret (Success tt)
  end.

Definition deleteTodo (id : jsstring) : Settled (ActionResponse unit) :=
  tryCatch (deleteTodo_body id)
    (fun error w =>
       (Failure "Unable to delete todo. Please try again.",
        console_error "Error deleting todo:" error w)).

Definition toggleTodo_body (id : jsstring) : Async (ActionResponse unit) :=
  match finish (todoIdOnlySchema isUuid id) with
  | ParseError issues => ret (Failure (errorMessages issues))
  | ParseSuccess validId =>
      existing <- selectById pg validId ;;
      if List.length existing =? 0
      then ret (Failure "Todo not found.")
      else
        updateNotDone pg validId ;;;
        revalidatePath "/" ;;;
        ret (Success tt)
  end.

Definition toggleTodo (id : jsstring) : Settled (ActionResponse unit) :=
  tryCatch (toggleTodo_body id)
    (fun error w =>
       (Failure "Unable to update todo. Please try again.",
        console_error "Error toggling todo:" error w)).

Definition editTodo_body (id text : jsstring)
  : Async (ActionResponse unit) :=
  match finish (editTodoSchema isUuid id text) with
  | ParseError issues => ret (Failure (errorMessages issues))
  | ParseSuccess (validId, validText) =>
      existing <- selectById pg validId ;;
      if List.length existing =? 0
      then ret (Failure "Todo not found.")
      else
        updateText pg validId validText ;;;
        revalidatePath "/" ;;;
        ret (Success tt)
  end.

Definition editTodo (id text : jsstring) : Settled (ActionResponse unit) :=
  tryCatch (editTodo_body id text)
    (fun error w =>
       (Failure "Unable to update todo. Please try again.",
        console_error "Error editing todo:" error w)).

End WithEnvironment.

(** The same world behind a connection whose errors read differently. *)
Definition reworded (f : string -> string) (w : world) : world :=
  {| table := table w; faults := map (option_map f) (faults w);
     statements := statements w; console := console w;
     revalidated := revalidated w; generated := generated w |}.

(** [action] masks storage failures: whenever a statement it sent failed
    with [e], it answers the fixed message [generic] and hands [e] to
    [console.error] under [label]. *)
Definition masks {T} (action : Settled (ActionResponse T))
    (label generic : string) : Prop :=
  forall (w : world) (s : statement) (e : string),
    In (s, Some e) (issued w (snd (action w))) ->
    fst (action w) = Failure generic
    /\ console (snd (action w)) = console w ++ [(label, e)].

(** The answer of [action] does not depend on what the errors of the
    connection say. *)
Definition blind {T} (action : Settled (ActionResponse T)) : Prop :=
  forall (f : string -> string) (w : world),
    fst (action (reworded f w)) = fst (action w).

End Actions.

Import Actions.

(** The earlier copy of the actions, from before the identifiers became
    UUIDs, which the change log records as replaced.  Its [catch] blocks
    answer [error instanceof Error ? error.message : "Failed to ..."];
    [getData] is the one action whose body did not change. *)
Module Legacy.

Definition getData : Settled (ActionResponse (list todoType)) :=
  tryCatch getData_body
    (fun error w => (Failure error, console_error "Error fetching todos:" error w)).

End Legacy.

(* ================================================================== *)
(** * Client hooks: [useTodos], [useOptimisticUpdate], [useError] *)
(* ================================================================== *)

Module Hooks.

(** What a controller call does, in order: the server action it awaits,
    each [setState], each error handed to [onError]. *)
Inductive call : Type :=
| CallAddTodo (text : jsstring)
| CallEditTodo (id text : jsstring)
| CallToggleTodo (id : jsstring)
| CallDeleteTodo (id : jsstring)
| CallServerAction.

Inductive event (T : Type) : Type :=
| Invoke (c : call)
| SetState (next : T)
| Report (message : string).
Arguments Invoke {T} c.
Arguments SetState {T} next.
Arguments Report {T} message.

(** One mounted hook: the server behind the actions, the value held by
    [useState], and the record of what happened. *)
Record page (T : Type) : Type := {
  server : world;
  state : T;
  timeline : list (event T)
}.

(** [setState((prev) => f(prev))] *)
Definition setStateWith {T} (f : T -> T) (p : page T) : page T :=
  let next := f (state p) in
  {| server := server p; state := next;
     timeline := timeline p ++ [SetState next] |}.

(** [setState(v)] *)
Definition setStateTo {T} (v : T) (p : page T) : page T :=
  {| server := server p; state := v;
     timeline := timeline p ++ [SetState v] |}.

(** [onError(message)] *)
Definition onError {T} (message : string) (p : page T) : page T :=
  {| server := server p; state := state p;
     timeline := timeline p ++ [Report message] |}.

(** [await action(...)] *)
Definition await {T A} (c : call) (action : Settled A) (p : page T)
  : A * page T :=
  let (result, w) := action (server p) in
  (result,
   {| server := w; state := state p;
      timeline := timeline p ++ [Invoke c] |}).

Section UseTodos.

Variable isUuid : jsstring -> bool.
Variable pg : database.

Definition createTodo (text : jsstring) (p : page (list todoType))
  : page (list todoType) :=
  let (result, p1) :=
    await (CallAddTodo text) (addTodo pg text) p in
  match result with
  | Success data => setStateWith (fun prev => prev ++ [data]) p1
  | Failure error => onError error p1
  end.

(** In the three handlers below [todos] is the value the handler closed
    over: the state of the render that created it.  [[...todos]] copies
    the array; nothing here writes to an array in place, so the copy is
    the same list. *)
Definition changeTodoText (todos : list todoType) (id text : jsstring)
    (p : page (list todoType)) : page (list todoType) :=
  let originalTodos := todos in
  let p1 :=
    setStateWith
      (map (fun todo =>
              if JS.eqb (Db.id todo) id then withText text todo else todo))
      p in
  let (result, p2) :=
    await (CallEditTodo id text) (editTodo isUuid pg id text) p1 in
  match result with
  | Success _ => p2
  | Failure error => onError error (setStateTo originalTodos p2)
  end.

Definition toggleIsTodoDone (todos : list todoType) (id : jsstring)
    (p : page (list todoType)) : page (list todoType) :=
  let originalTodos := todos in
  let p1 :=
    setStateWith
      (map (fun todo =>
              if JS.eqb (Db.id todo) id then notDone todo else todo))
      p in
  let (result, p2) := await (CallToggleTodo id) (toggleTodo isUuid pg id) p1 in
  match result with
  | Success _ => p2
  | Failure error => onError error (setStateTo originalTodos p2)
  end.

Definition deleteTodoItem (todos : list todoType) (id : jsstring)
    (p : page (list todoType)) : page (list todoType) :=
  let originalTodos := todos in
  let p1 :=
    setStateWith
      (filter (fun todo => negb (JS.eqb (Db.id todo) id))) p in
  let (result, p2) := await (CallDeleteTodo id) (deleteTodo isUuid pg id) p1 in
  match result with
  | Success _ => p2
  | Failure error => onError error (setStateTo originalTodos p2)
  end.

End UseTodos.

(** [useOptimisticUpdate]: the server action answers
    [{ success: boolean; error?: string }]; [onError] is optional. *)
Definition nonEmpty (s : string) : bool :=
  match s with EmptyString => false | String _ _ => true end.

Definition performOptimisticUpdate {T} (data : T) (hasOnError : bool)
    (optimisticUpdate : T -> T)
    (serverAction : Settled (bool * option string))
    (p : page T) : page T :=
  let originalData := data in
  let p1 := setStateWith optimisticUpdate p in
  let (result, p2) := await CallServerAction serverAction p1 in
  if negb (fst result)
  then
    let p3 := setStateTo originalData p2 in
    match snd result with
    | Some error => if hasOnError && nonEmpty error then onError error p3 else p3
    | None => p3
    end
  else p2.

(** [useError]: the message on display, the pending [setTimeout]
    callbacks (each one is [() => setError(null)], so a callback is its
    due time) and the clock, in milliseconds. *)
Record errorState : Type := {
  error : option string;
  timers : list N;
  now : N
}.

Definition useError_initial : errorState :=
  {| error := None; timers := []; now := 0%N |}.

(** [setTimeout] keeps its delay as a signed 32-bit integer: the number
    of milliseconds wraps modulo 2^32, and a delay that comes out negative
    counts as 0. *)
Definition timerDelay (ms : N) : N :=
  let wrapped := (ms mod 4294967296)%N in
  if (wrapped <? 2147483648)%N then wrapped else 0%N.

(** [showError]: [setError(message)], then
    [setTimeout(() => setError(null), dismissAfter)], for a delay of a
    whole number of milliseconds. *)
Definition showError (dismissAfter : N) (message : string)
    (st : errorState) : errorState :=
  {| error := Some message;
     timers := timers st ++ [(now st + timerDelay dismissAfter)%N];
     now := now st |}.

Definition clearError (st : errorState) : errorState :=
  {| error := None; timers := timers st; now := now st |}.

(** [ms] milliseconds pass with no call from the component: every
    callback that falls due runs. *)
Definition elapse (ms : N) (st : errorState) : errorState :=
  let t := (now st + ms)%N in
  {| error := if existsb (fun due => (due <=? t)%N) (timers st)
              then None else error st;
     timers := filter (fun due => negb (due <=? t)%N) (timers st);
     now := t |}.

(** [useError(dismissAfter: number = 5000)], and the fixed delay of
    [showError] in the [Todos] component. *)
Definition defaultDismissAfter : N := 5000.

End Hooks.

Import Hooks.

(* ================================================================== *)
(** * The [AddTodo] component *)
(* ================================================================== *)

Module AddTodo.

(** The two [useState] cells, the [createTodo] promises not yet settled,
    and every call made to [createTodo]: its argument and the number of
    calls in flight at that moment. *)
Record component : Type := {
  input : jsstring;
  isLoading : bool;
  inFlight : nat;
  created : list (jsstring * nat)
}.

Definition mount : component :=
  {| input := []; isLoading := false; inFlight := 0; created := [] |}.

Definition handleInput (value : jsstring) (c : component) : component :=
  {| input := value; isLoading := isLoading c;
     inFlight := inFlight c; created := created c |}.

(** [handleAdd] up to its [await]. *)
Definition handleAdd (c : component) : component :=
  if isLoading c || negb (truthy (trim (input c)))
  then c
  else {| input := input c; isLoading := true;
          inFlight := S (inFlight c);
          created := created c ++ [(input c, inFlight c)] |}.

(** [handleAdd] from the [await] on: [setInput("")] when the promise
    resolved, [setIsLoading(false)] in either case.  Only a call in flight
    can settle. *)
Definition handleAdd_settled (resolved : bool) (c : component) : component :=
  match inFlight c with
  | O => c
  | S n =>
      {| input := if resolved then [] else input c;
         isLoading := false; inFlight := n; created := created c |}
  end.

Definition handleKeyPress (key : string) (c : component) : component :=
  if String.eqb key "Enter" && negb (isLoading c)
     && truthy (trim (input c))
  then handleAdd c
  else c.

(** [disabled={isLoading || !input.trim()}] on the Add button. *)
Definition addDisabled (c : component) : bool :=
  isLoading c || negb (truthy (trim (input c))).

Inductive action : Type :=
| Change (value : jsstring)
| Click
| KeyPress (key : string)
| Settle (resolved : bool).

Definition step (c : component) (a : action) : component :=
  match a with
  | Change value => handleInput value c
  | Click => handleAdd c
  | KeyPress key => handleKeyPress key c
  | Settle resolved => handleAdd_settled resolved c
  end.

Definition run (actions : list action) : component :=
  fold_left step actions mount.

(** [isLoading] tells whether a call is in flight, and at most one is. *)
Definition consistent (c : component) : Prop :=
  (isLoading c = false /\ inFlight c = 0)
  \/ (isLoading c = true /\ inFlight c = 1).

(** Every call made so far had a text that does not trim to empty and
    found no other call in flight. *)
Definition guarded (c : component) : Prop :=
  Forall (fun made => trim (fst made) <> [] /\ snd made = 0) (created c).

End AddTodo.

(* ================================================================== *)
(** * What the schema of the table promises *)
(* ================================================================== *)

Module Invariant.

(** [id: uuid("id").primaryKey()]: no two rows carry the same key. *)
Definition uniqueIds (rows : list todoType) : Prop :=
  NoDup (map id rows).

(** A stored text is well formed when trimming leaves it alone, it is not
    empty and it has at most 500 code units. *)
Definition wellFormedText (t : jsstring) : Prop :=
  trim t = t /\ t <> [] /\ List.length t <= max_text_length.

Definition wellFormedRows (rows : list todoType) : Prop :=
  Forall (fun row => wellFormedText (text row)) rows.

(** The database prints a uuid in one spelling, and the rows it returns
    carry their identifier in that spelling. *)
Definition canonicalIds (pg : database) (rows : list todoType) : Prop :=
  Forall (fun row => uuidText pg (id row) = id row) rows.

(** The errors of the statements that failed, in order. *)
Fixpoint failures (sent : list (statement * option string)) : list string :=
  match sent with
  | [] => []
  | (_, Some e) :: rest => e :: failures rest
  | (_, None) :: rest => failures rest
  end.

(** The statements that write to the table. *)
Definition writes (s : statement) : bool :=
  match s with
  | SelectAll | SelectById _ => false
  | InsertReturning _ | UpdateText _ _ | UpdateNotDone _ | DeleteById _ => true
  end.

End Invariant.

Import Invariant.

(* ================================================================== *)
(** * The [Todos] component and the page that mounts it *)
(* ================================================================== *)

(** [components/todos.tsx]: the component that keeps the collection and
    the error toast in its own [useState] cells, without the hooks. *)
Module Todos.

Record component : Type := {
  srv : world;
  todoItems : list todoType;
  toast : errorState
}.

(** [useState(todos)] and [useState(null)] at mount. *)
Definition mount (w : world) (todos : list todoType) (clock : N) : component :=
  {| srv := w; todoItems := todos;
     toast := {| error := None; timers := []; now := clock |} |}.

(** [setError(message); setTimeout(() => setError(null), 5000)] *)
Definition showError (message : string) (c : component) : component :=
  {| srv := srv c; todoItems := todoItems c;
     toast := Hooks.showError 5000 message (toast c) |}.

Definition setTodoItems (f : list todoType -> list todoType) (c : component)
  : component :=
  {| srv := srv c; todoItems := f (todoItems c); toast := toast c |}.

Definition await {A} (action : Settled A) (c : component) : A * component :=
  let (result, w) := action (srv c) in
  (result, {| srv := w; todoItems := todoItems c; toast := toast c |}).

Section Handlers.

Variable isUuid : jsstring -> bool.
Variable pg : database.

Definition createTodo (text : jsstring) (c : component) : component :=
  let (result, c1) := await (addTodo pg text) c in
  match result with
  | Success data => setTodoItems (fun prev => prev ++ [data]) c1
  | Failure error => showError error c1
  end.

(** As in [useTodos], the first argument is the collection the handler
    closed over. *)
Definition changeTodoText (todoItems0 : list todoType) (id text : jsstring)
    (c : component) : component :=
  let originalTodos := todoItems0 in
  let c1 :=
    setTodoItems
      (map (fun todo =>
              if JS.eqb (Db.id todo) id then withText text todo else todo))
      c in
  let (result, c2) := await (editTodo isUuid pg id text) c1 in
  match result with
  | Success _ => c2
  | Failure error => showError error (setTodoItems (fun _ => originalTodos) c2)
  end.

Definition toggleIsTodoDone (todoItems0 : list todoType) (id : jsstring)
    (c : component) : component :=
  let originalTodos := todoItems0 in
  let c1 :=
    setTodoItems
      (map (fun todo =>
              if JS.eqb (Db.id todo) id then notDone todo else todo))
      c in
  let (result, c2) := await (toggleTodo isUuid pg id) c1 in
  match result with
  | Success _ => c2
  | Failure error => showError error (setTodoItems (fun _ => originalTodos) c2)
  end.

Definition deleteTodoItem (todoItems0 : list todoType) (id : jsstring)
    (c : component) : component :=
  let originalTodos := todoItems0 in
  let c1 :=
    setTodoItems (filter (fun todo => negb (JS.eqb (Db.id todo) id))) c in
  let (result, c2) := await (deleteTodo isUuid pg id) c1 in
  match result with
  | Success _ => c2
  | Failure error => showError error (setTodoItems (fun _ => originalTodos) c2)
  end.

End Handlers.

(** [app/page.tsx]: what [Home] renders. *)
Inductive view : Type :=
| ErrorPanel (message : string)
| TodosList (todos : list todoType).

Definition Home : Settled view :=
  fun w =>
    let (result, w') := getData w in
    match result with
    | Failure error => (ErrorPanel error, w')
    | Success data => (TodosList data, w')
    end.

End Todos.

(* ================================================================== *)
(** * The refactored component: [useTodos] with [useError] *)
(* ================================================================== *)

(** [components/todos-refactored.tsx] hands [showError] of [useError()] to
    [useTodos] as its [onError]. *)
Module Refactored.

(** The messages a timeline handed to [onError], in order. *)
Fixpoint reports {T} (events : list (event T)) : list string :=
  match events with
  | [] => []
  | Report message :: rest => message :: reports rest
  | _ :: rest => reports rest
  end.

(** [showError] of [useError()] run on each of them. *)
Definition shown (messages : list string) (st : errorState) : errorState :=
  fold_left (fun st message => Hooks.showError defaultDismissAfter message st)
    messages st.

(** The original component and the refactored one stand in the same
    place: same server, same collection, and the toast is what [useError]
    shows after the reports made so far, starting from [st0]. *)
Definition agrees (st0 : errorState) (c : Todos.component)
    (p : page (list todoType)) : Prop :=
  Todos.srv c = server p
  /\ Todos.todoItems c = state p
  /\ Todos.toast c = shown (reports (timeline p)) st0.

End Refactored.

(* ================================================================== *)
(** * A handler of [useTodos] on either side of its [await] *)
(* ================================================================== *)

Module Phases.

(** Up to the [await]: the optimistic state update.  The snapshot
    [originalTodos] stays in the closure. *)
Definition begin {T} (optimistic : T -> T) (p : page T) : page T :=
  setStateWith optimistic p.

(** From the [await] on, once the action has answered. *)
Definition settle {T A} (originalTodos : T) (result : ActionResponse A)
    (p : page T) : page T :=
  match result with
  | Success _ => p
  | Failure error => onError error (setStateTo originalTodos p)
  end.

End Phases.

(* ================================================================== *)
(** * [useFileUpload] *)
(* ================================================================== *)

Module Upload.

(** A value caught by [catch (err)]: an [Error] with its message, or
    anything else. *)
Inductive thrown : Type :=
| ErrorObject (message : string)
| OtherValue.

Section WithBlob.

(** [PutBlobResult] *)
Variable blob : Type.

(** How [fetch] and then [response.json()] went. *)
Inductive fetched : Type :=
| Rejected (err : thrown)
| Responded (ok : bool) (statusText : string) (json : thrown + blob).

Record hook : Type := {
  uploadedFile : option blob;
  isUploading : bool;
  error : option string
}.

Definition initial : hook :=
  {| uploadedFile := None; isUploading := false; error := None |}.

(** [uploadFile] up to its [await fetch]. *)
Definition uploadFile_start (h : hook) : hook :=
  {| uploadedFile := uploadedFile h; isUploading := true; error := None |}.

(** What the [try] block does with the response: the value returned, or
    the value thrown. *)
Definition received (f : fetched) : thrown + blob :=
  match f with
  | Rejected err => inl err
  | Responded ok statusText json =>
      if negb ok
      then inl (ErrorObject ("Upload failed: " ++ statusText))
      else json
  end.

(** [uploadFile] from the [await] on, through [catch] and [finally]. *)
Definition uploadFile_settled (f : fetched) (h : hook) : option blob * hook :=
  match received f with
  | inr result =>
      (Some result,
       {| uploadedFile := Some result; isUploading := false;
          error := error h |})
  | inl err =>
      let errorMessage :=
        match err with
        | ErrorObject message => message
        | OtherValue => "Upload failed"%string
        end in
      (None,
       {| uploadedFile := uploadedFile h; isUploading := false;
          error := Some errorMessage |})
  end.

Definition uploadFile (f : fetched) (h : hook) : option blob * hook :=
  uploadFile_settled f (uploadFile_start h).

Definition reset (h : hook) : hook :=
  {| uploadedFile := None; isUploading := isUploading h; error := None |}.

End WithBlob.

End Upload.

(* ================================================================== *)
(** * Test helpers: [tests/utils.tsx] *)
(* ================================================================== *)

Module TestUtils.

(** [mockActionResponse(success, data?, error?)]; an argument left out is
    [undefined], here [None]. *)
Definition mockActionResponse {T} (success : bool) (data : option T)
    (error : option string) : ActionResponse T :=
  match success, data with
  | true, Some d => Success d
  | _, _ =>
      Failure
        match error with
        | Some e => if nonEmpty e then e else "Mock error"%string
        | None => "Mock error"%string
        end
  end.

End TestUtils.

(* ================================================================== *)
(** * A session: one call after another *)
(* ================================================================== *)

(** What the user asks of the controller.  Each call runs to its end
    before the next one starts, and each handler is the one of the current
    render. *)
Module Session.

Inductive intent : Type :=
| Create (text : jsstring)
| Edit (id text : jsstring)
| Toggle (id : jsstring)
| Remove (id : jsstring).

Section WithEnvironment.

Variable isUuid : jsstring -> bool.
Variable pg : database.

Definition perform (p : page (list todoType)) (i : intent)
  : page (list todoType) :=
  match i with
  | Create text => createTodo pg text p
  | Edit id text => changeTodoText isUuid pg (state p) id text p
  | Toggle id => toggleIsTodoDone isUuid pg (state p) id p
  | Remove id => deleteTodoItem isUuid pg (state p) id p
  end.

Definition run (intents : list intent) (p : page (list todoType))
  : page (list todoType) :=
  fold_left perform intents p.

End WithEnvironment.

(** An edit whose text trimming leaves alone; other intents qualify. *)
Definition typedTrimmed (i : intent) : Prop :=
  match i with
  | Edit _ text => trim text = text
  | _ => True
  end.

(** An intent whose identifier is spelled as the database prints it, as
    the identifiers taken from rendered rows are; a create qualifies. *)
Definition spelledAsStored (pg : database) (i : intent) : Prop :=
  match i with
  | Create _ => True
  | Edit id _ | Toggle id | Remove id => uuidText pg id = id
  end.

End Session.

(* ================================================================== *)
(** * Concrete worlds used by the examples *)
(* ================================================================== *)

Module Sample.

Definition milkId : jsstring := lit "123e4567-e89b-42d3-a456-426614174000".

Definition unknownId : jsstring := lit "9b2f1c3e-7a45-4d6b-8c1f-0e2d3a4b5c6d".

(** A generator that draws distinct identifiers for its first ten calls. *)
Definition draw (n : nat) : jsstring :=
  lit "00000000-0000-4000-8000-00000000000" ++ [N.of_nat (48 + n mod 10)].

(** Upper-case hexadecimal digits spell the same uuid as lower-case ones. *)
Definition lowerHex (c : code_unit) : code_unit :=
  if ((0x41 <=? c) && (c <=? 0x46))%N then (c + 0x20)%N else c.

Definition canonical (s : jsstring) : jsstring := map lowerHex s.

(** The text column refuses a string that holds the code unit 0. *)
Definition storable (t : jsstring) : bool := negb (existsb (N.eqb 0) t).

Definition postgres : database :=
  {| uuidText := canonical; acceptsText := storable; gen_random_uuid := draw |}.

Definition milk : todoType :=
  {| id := milkId; text := lit "Buy milk"; done := false |}.


Definition milkWorld : world :=
  {| table := [milk]; faults := []; statements := []; console := [];
     revalidated := []; generated := 0 |}.

(** The same table behind a connection whose first statement fails. *)
Definition brokenWorld (detail : string) : world :=
  {| table := [milk]; faults := [Some detail]; statements := [];
     console := []; revalidated := []; generated := 0 |}.

Definition eggsId : jsstring := lit "0a1b2c3d-4e5f-4a6b-9c7d-8e9f0a1b2c3d".

Definition eggs : todoType :=
  {| id := eggsId; text := lit "Eggs"; done := true |}.

Definition pantryWorld : world :=
  {| table := [milk; eggs]; faults := []; statements := []; console := [];
     revalidated := []; generated := 0 |}.

Definition pantryPage : page (list todoType) :=
  {| server := pantryWorld; state := [milk; eggs]; timeline := [] |}.

(** The identifier of [milk] as a client could also spell it. *)
Definition milkIdUpper : jsstring := lit "123E4567-E89B-42D3-A456-426614174000".

Definition milkPage : page (list todoType) :=
  {| server := milkWorld; state := [milk]; timeline := [] |}.

Definition brokenPage : page (list todoType) :=
  {| server := brokenWorld "ECONNREFUSED 10.0.0.5:5432";
     state := [milk]; timeline := [] |}.

End Sample.

(* ================================================================== *)
(** * Properties *)
(* ================================================================== *)

Example lit_buy_milk : trim (lit "  Buy milk  ") = lit "Buy milk".
Proof. reflexivity. Qed.

Example uuidFormat_ok :
  uuidFormat (lit "123e4567-e89b-42d3-a456-426614174000") = true
  /\ uuidFormat (lit "123E4567-E89B-42D3-A456-426614174000") = true
  /\ uuidFormat (lit "00000000-0000-0000-0000-000000000000") = true
  /\ uuidFormat (lit "123e4567-e89b-02d3-a456-426614174000") = false
  /\ uuidFormat (lit "123e4567-e89b-42d3-c456-426614174000") = false
  /\ uuidFormat (lit "123e4567-e89b-42d3-a456-42661417400") = false
  /\ uuidFormat (lit "999") = false.
Proof. repeat split. Qed.

(** The sample database reads the upper-case spelling of an identifier as
    the uuid of the lower-case one, and refuses a text with the code
    unit 0. *)
Example postgres_ok :
  hasId Sample.postgres Sample.milkIdUpper Sample.milk = true
  /\ JS.eqb (Db.id Sample.milk) Sample.milkIdUpper = false
  /\ hasId Sample.postgres Sample.unknownId Sample.milk = false
  /\ acceptsText Sample.postgres (lit "Buy milk") = true
  /\ acceptsText Sample.postgres [97%N; 0%N; 98%N] = false.
Proof. repeat split. Qed.

(* ------------------------------------------------------------------ *)
(** ** Trimming *)

Lemma trimEnd_idempotent (s : jsstring) : trimEnd (trimEnd s) = trimEnd s.
Proof.
  induction s as [|c r IH]; simpl; [reflexivity|].
  destruct (trimEnd r) as [|x r'] eqn:E.
  - destruct (isWhiteSpace c) eqn:W; simpl; [reflexivity|].
    now rewrite W.
  - change (trimEnd (c :: x :: r')) with
      (match trimEnd (x :: r') with
       | [] => if isWhiteSpace c then [] else [c]
       | y :: l => c :: y :: l
       end).
    now rewrite IH.
Qed.

Lemma trimEnd_keeps_head (c : code_unit) (r : jsstring) :
  isWhiteSpace c = false -> exists l, trimEnd (c :: r) = c :: l.
Proof.
  intros W. simpl. destruct (trimEnd r) as [|x r'].
  - rewrite W. now exists [].
  - now exists (x :: r').
Qed.

Lemma trimStart_head (s : jsstring) :
  trimStart s = []
  \/ exists c r, trimStart s = c :: r /\ isWhiteSpace c = false.
Proof.
  induction s as [|c r IH]; simpl; [now left|].
  destruct (isWhiteSpace c) eqn:W; [exact IH|].
  right. now exists c, r.
Qed.

Lemma trimEnd_snoc (s : jsstring) (c : code_unit) :
  trimEnd (s ++ [c]) = if isWhiteSpace c then trimEnd s else s ++ [c].
Proof.
  induction s as [|a s IH]; cbn [app trimEnd].
  - now destruct (isWhiteSpace c).
  - rewrite IH. destruct (isWhiteSpace c); [reflexivity|].
    now destruct s.
Qed.

(** [trimEnd] strips at the end what [trimStart] strips at the start. *)
Lemma trimEnd_mirrors_trimStart (s : jsstring) :
  trimEnd s = rev (trimStart (rev s)).
Proof.
  induction s as [|c s IH] using rev_ind; [reflexivity|].
  rewrite trimEnd_snoc, rev_app_distr. cbn [rev app trimStart].
  destruct (isWhiteSpace c); [exact IH|].
  cbn [rev]. now rewrite rev_involutive.
Qed.

Lemma trim_idempotent (s : jsstring) : trim (trim s) = trim s.
Proof.
  unfold trim.
  destruct (trimStart_head s) as [E | (c & r & E & W)]; rewrite E.
  - reflexivity.
  - destruct (trimEnd_keeps_head c r W) as [l El]. rewrite El.
    simpl trimStart. rewrite W. rewrite <- El. apply trimEnd_idempotent.
Qed.

Example trim_examples :
  trim (lit "") = []
  /\ trim (lit "   ") = []
  /\ trim (lit " a  b ") = lit "a  b"
  /\ trim (9 :: 0x2028 :: lit "x" ++ [0xFEFF; 0x3000])%N = lit "x".
Proof. repeat split. Qed.

(* ------------------------------------------------------------------ *)
(** ** Text validation *)

Lemma todoTextSchema_accepts (text : jsstring) :
  trim text <> [] -> List.length (trim text) <= max_text_length ->
  finish (todoTextSchema text) = ParseSuccess (trim text).
Proof.
  intros Hne Hle. unfold finish, todoTextSchema. simpl.
  destruct (trim text) as [|c r] eqn:E; [congruence|].
  replace (List.length (c :: r) <? 1) with false
    by (symmetry; apply Nat.ltb_ge; simpl; lia).
  replace (max_text_length <? List.length (c :: r)) with false
    by (symmetry; apply Nat.ltb_ge; exact Hle).
  reflexivity.
Qed.

Lemma todoTextSchema_rejects (text : jsstring) :
  trim text = [] \/ max_text_length < List.length (trim text) ->
  exists issues, finish (todoTextSchema text) = ParseError issues
                 /\ issues <> [].
Proof.
  intros H. unfold finish, todoTextSchema. simpl.
  destruct H as [E | L].
  - rewrite E. simpl. eexists. split; [reflexivity | discriminate].
  - apply Nat.ltb_lt in L. rewrite L.
    destruct (List.length (trim text) <? 1); simpl;
      (eexists; split; [reflexivity | discriminate]).
Qed.

Lemma todoTextSchema_success (text v : jsstring) :
  finish (todoTextSchema text) = ParseSuccess v ->
  v = trim text /\ trim text <> []
  /\ List.length (trim text) <= max_text_length.
Proof.
  intros Hv.
  destruct (trim text) as [|c r] eqn:E.
  - destruct (todoTextSchema_rejects text) as (i & Hi & _);
      [left; exact E | congruence].
  - destruct (Nat.lt_ge_cases max_text_length (List.length (c :: r))) as [L|L].
    + destruct (todoTextSchema_rejects text) as (i & Hi & _);
        [right; now rewrite E | congruence].
    + assert (A : finish (todoTextSchema text) = ParseSuccess (trim text))
        by (apply todoTextSchema_accepts; rewrite E; [discriminate | exact L]).
      rewrite A in Hv. injection Hv as <-.
      rewrite E. repeat split; [discriminate | exact L].
Qed.

(** C2. Text validation fails exactly when the trimmed input is empty or
    longer than 500 code units; otherwise it accepts and yields the trimmed
    string, and validating that string again yields it unchanged. *)
Theorem todoTextSchema_trims_and_bounds (text : jsstring) :
  ((exists issues, finish (todoTextSchema text) = ParseError issues)
   <-> (trim text = [] \/ 500 < List.length (trim text)))
  /\ ((exists v, finish (todoTextSchema text) = ParseSuccess v)
      <-> finish (todoTextSchema text) = ParseSuccess (trim text))
  /\ (forall v, finish (todoTextSchema text) = ParseSuccess v ->
       v = trim text /\ trim v = v
       /\ finish (todoTextSchema v) = ParseSuccess v).
Proof.
  assert (D : (trim text = [] \/ max_text_length < List.length (trim text))
              \/ (trim text <> [] /\ List.length (trim text) <= max_text_length)).
  { destruct (trim text) as [|c r]; [now left; left|].
    destruct (Nat.lt_ge_cases max_text_length (List.length (c :: r)));
      [left; now right | right; split; [discriminate | assumption]]. }
  assert (S : forall v, finish (todoTextSchema text) = ParseSuccess v ->
                        v = trim text /\ trim v = v
                        /\ finish (todoTextSchema v) = ParseSuccess v).
  { intros v Hv. destruct D as [Bad | [Hne Hle]].
    - destruct (todoTextSchema_rejects text Bad) as (i & Hi & _). congruence.
    - rewrite (todoTextSchema_accepts text Hne Hle) in Hv.
      injection Hv as <-. split; [reflexivity|]. split; [apply trim_idempotent|].
      rewrite <- (trim_idempotent text) at 2.
      apply todoTextSchema_accepts; rewrite trim_idempotent; assumption. }
  split; [|split; [|exact S]].
  - split.
    + intros [issues Hi]. destruct D as [Bad | [Hne Hle]]; [exact Bad|].
      rewrite (todoTextSchema_accepts text Hne Hle) in Hi. discriminate.
    + intros Bad. destruct (todoTextSchema_rejects text Bad) as (i & Hi & _).
      now exists i.
  - split.
    + intros [v Hv]. destruct (S v Hv) as [-> _]. exact Hv.
    + intros H. now exists (trim text).
Qed.

Example todoTextSchema_examples :
  finish (todoTextSchema (lit "  Buy milk  ")) = ParseSuccess (lit "Buy milk")
  /\ finish (todoTextSchema (lit "   "))
     = ParseError ["Todo text cannot be empty"%string]
  /\ finish (todoTextSchema (repeat 97%N 500)) = ParseSuccess (repeat 97%N 500)
  /\ finish (todoTextSchema (repeat 97%N 501))
     = ParseError ["Todo text must be less than 500 characters"%string].
Proof. repeat split. Qed.

(* ------------------------------------------------------------------ *)
(** ** The action layer *)

Lemma issued_app (w w' : world) (d : list (statement * option string)) :
  statements w' = statements w ++ d -> issued w w' = d.
Proof.
  intros E. unfold issued. rewrite E.
  rewrite skipn_app, skipn_all, Nat.sub_diag. reflexivity.
Qed.

Lemma issued_refl (w : world) : issued w w = [].
Proof. apply issued_app. now rewrite app_nil_r. Qed.

Lemma filter_absent {A} (f : A -> bool) (l : list A) :
  existsb f l = false -> filter f l = [].
Proof.
  induction l as [|x l IH]; simpl; [reflexivity|].
  destruct (f x); simpl; [discriminate | exact IH].
Qed.

Lemma filter_present {A} (f : A -> bool) (l : list A) :
  existsb f l = true -> exists x l', filter f l = x :: l'.
Proof.
  induction l as [|x l IH]; simpl; [discriminate|].
  destruct (f x); simpl; [intros _; now exists x, (filter f l) | exact IH].
Qed.

Lemma lookup_empty_iff (pg : database) (key : jsstring) (rows : list todoType) :
  (List.length (firstn 1 (filter (hasId pg key) rows)) =? 0) = true
  <-> existsb (hasId pg key) rows = false.
Proof.
  destruct (existsb (hasId pg key) rows) eqn:E.
  - destruct (filter_present _ _ E) as (x & l' & ->). simpl. split; discriminate.
  - rewrite (filter_absent _ _ E). simpl. split; reflexivity.
Qed.

Lemma todoTextSchema_no_issue (text : jsstring) :
  trim text <> [] -> List.length (trim text) <= max_text_length ->
  snd (todoTextSchema text) = [].
Proof.
  intros Hne Hle. unfold todoTextSchema. simpl.
  destruct (trim text) as [|c r] eqn:E; [congruence|].
  replace (List.length (c :: r) <? 1) with false
    by (symmetry; apply Nat.ltb_ge; simpl; lia).
  replace (max_text_length <? List.length (c :: r)) with false
    by (symmetry; apply Nat.ltb_ge; exact Hle).
  reflexivity.
Qed.

Lemma validId_accepted (isUuid : jsstring -> bool) (id : jsstring) :
  isUuid id = true ->
  finish (todoIdOnlySchema isUuid id) = ParseSuccess id.
Proof.
  intros H. unfold finish, todoIdOnlySchema, todoIdSchema. simpl. now rewrite H.
Qed.

Lemma validEdit_accepted (isUuid : jsstring -> bool) (id text : jsstring) :
  isUuid id = true -> trim text <> [] ->
  List.length (trim text) <= max_text_length ->
  finish (editTodoSchema isUuid id text) = ParseSuccess (id, trim text).
Proof.
  intros H Hne Hle.
  unfold finish, editTodoSchema, todoIdSchema.
  cbn [fst snd]. rewrite H, (todoTextSchema_no_issue text Hne Hle).
  reflexivity.
Qed.

(** Unfolds an action down to the statements it sends. *)
Ltac open_action :=
  unfold getData, getData_body, addTodo, addTodo_body,
    deleteTodo, deleteTodo_body, toggleTodo, toggleTodo_body,
    editTodo, editTodo_body, tryCatch, Db.bind, Db.ret,
    selectAll, selectById, insertReturning, updateText, updateNotDone,
    deleteById, send, revalidatePath, console_error.

(** Negating [done] twice in the rows an identifier test picks gives the
    rows back. *)
Lemma negated_twice (picks : jsstring -> bool) (rows : list todoType) :
  map (fun r => if picks (id r) then notDone r else r)
    (map (fun r => if picks (id r) then notDone r else r) rows)
  = rows.
Proof.
  induction rows as [|r rows IH]; [reflexivity|].
  cbn [map]. rewrite IH. f_equal.
  destruct (picks (id r)) eqn:E; [|now rewrite E].
  cbn [notDone id]. rewrite E. destruct r as [i t d].
  unfold notDone. cbn [id text done]. now rewrite negb_involutive.
Qed.

Section ActionProperties.

Variable isUuid : jsstring -> bool.
Variable pg : database.

(** C6. When validation fails, each action answers with the joined
    validation messages and the world is untouched: no statement is sent,
    nothing is logged, no path is revalidated. *)
Theorem validation_failure_touches_no_store (w : world) :
  (forall text issues,
      finish (addTodoSchema text) = ParseError issues ->
      addTodo pg text w = (Failure (errorMessages issues), w))
  /\ (forall id text issues,
         finish (editTodoSchema isUuid id text) = ParseError issues ->
         editTodo isUuid pg id text w = (Failure (errorMessages issues), w))
  /\ (forall id issues,
         finish (todoIdOnlySchema isUuid id) = ParseError issues ->
         toggleTodo isUuid pg id w = (Failure (errorMessages issues), w))
  /\ (forall id issues,
         finish (todoIdOnlySchema isUuid id) = ParseError issues ->
         deleteTodo isUuid pg id w = (Failure (errorMessages issues), w)).
Proof.
  repeat split; intros.
  - unfold addTodo, addTodo_body, tryCatch. now rewrite H.
  - unfold editTodo, editTodo_body, tryCatch. now rewrite H.
  - unfold toggleTodo, toggleTodo_body, tryCatch. now rewrite H.
  - unfold deleteTodo, deleteTodo_body, tryCatch. now rewrite H.
Qed.

(** The existence check alone: the connection is up and the key is not
    in the table. *)
Lemma lookup_absent_run (key : jsstring) (w : world) :
  hd None (faults w) = None -> present pg key w = false ->
  selectById pg key w
  = (Returned [],
     {| table := table w; faults := tl (faults w);
        statements := statements w ++ [(SelectById key, None)];
        console := console w; revalidated := revalidated w;
        generated := generated w |}).
Proof.
  intros Up Abs. unfold selectById, send. rewrite Up.
  unfold present in Abs. now rewrite (filter_absent _ _ Abs).
Qed.

(** C3 (as amended). For a well-formed identifier whose uuid no row of the
    table has (the database compares uuid values, so the spelling of the
    identifier does not matter), with the existence check itself answered
    by the store (and, for
    [editTodo], a text that passes validation), each of [editTodo],
    [toggleTodo] and [deleteTodo] answers the failure "Todo not found."
    (with its full stop), leaves the table as it was, and sends nothing but
    the existence check. *)
Theorem absent_id_reports_not_found (w : world) (id : jsstring) :
  isUuid id = true ->
  hd None (faults w) = None ->
  present pg id w = false ->
  (forall text,
      trim text <> [] -> List.length (trim text) <= 500 ->
      let r := editTodo isUuid pg id text w in
      fst r = Failure "Todo not found."
      /\ table (snd r) = table w
      /\ issued w (snd r) = [(SelectById id, None)])
  /\ (let r := toggleTodo isUuid pg id w in
      fst r = Failure "Todo not found."
      /\ table (snd r) = table w
      /\ issued w (snd r) = [(SelectById id, None)])
  /\ (let r := deleteTodo isUuid pg id w in
      fst r = Failure "Todo not found."
      /\ table (snd r) = table w
      /\ issued w (snd r) = [(SelectById id, None)]).
Proof.
  intros Ok Up Abs.
  pose proof (lookup_absent_run id w Up Abs) as L.
  split; [intros body Hne Hle | split].
  - unfold editTodo, editTodo_body, tryCatch, Db.bind.
    rewrite (validEdit_accepted isUuid id body Ok Hne Hle), L.
    repeat split. now apply issued_app.
  - unfold toggleTodo, toggleTodo_body, tryCatch, Db.bind.
    rewrite (validId_accepted isUuid id Ok), L.
    repeat split. now apply issued_app.
  - unfold deleteTodo, deleteTodo_body, tryCatch, Db.bind.
    rewrite (validId_accepted isUuid id Ok), L.
    repeat split. now apply issued_app.
Qed.

(** What a successful [getData] returned and left behind. *)
Lemma getData_success (w w' : world) (rows : list todoType) :
  getData w = (Success rows, w') ->
  rows = table w /\ table w' = table w /\ generated w' = generated w.
Proof.
  open_action. destruct (hd None (faults w)); [discriminate|].
  intros H. injection H as <- <-. repeat split.
Qed.


(** A valid text that the text column takes, a connection that is up and
    a fresh identifier are enough for [addTodo] to succeed. *)
Lemma addTodo_succeeds (body : jsstring) (w : world) :
  trim body <> [] -> List.length (trim body) <= max_text_length ->
  acceptsText pg (trim body) = true ->
  hd None (faults w) = None ->
  present pg (gen_random_uuid pg (generated w)) w = false ->
  exists item w', addTodo pg body w = (Success item, w').
Proof.
  intros Hne Hle Ok Up Fresh. open_action. unfold addTodoSchema.
  rewrite (todoTextSchema_accepts body Hne Hle), Up, Ok.
  unfold present in Fresh. cbn [id]. rewrite Fresh.
  eexists. eexists. reflexivity.
Qed.


Lemma todoIdOnly_success (id v : jsstring) :
  finish (todoIdOnlySchema isUuid id) = ParseSuccess v ->
  v = id /\ isUuid id = true.
Proof.
  unfold finish, todoIdOnlySchema, todoIdSchema. cbn [fst snd].
  destruct (isUuid id); [|discriminate].
  intros H. injection H as <-. now split.
Qed.

(** Reads the statements of a run off the final world. *)
Ltac read_issued H :=
  first
    [ rewrite issued_refl in H
    | erewrite issued_app in H
        by (cbn [statements]; rewrite <- ?app_assoc; reflexivity) ].

Ltac masked :=
  cbn [fst snd]; intros HIn; read_issued HIn; cbn [app In] in HIn;
  repeat match goal with
         | H : _ \/ _ |- _ => destruct H
         | H : False |- _ => destruct H
         | H : (_, _) = (_, _) |- _ => inversion H; subst; clear H
         end;
  try discriminate; split; reflexivity.

Lemma getData_masks :
  masks getData "Error fetching todos:"
    "Unable to load todos. Please try again later.".
Proof.
  intros w s e. open_action.
  destruct (hd None (faults w)); masked.
Qed.

Lemma addTodo_masks (body : jsstring) :
  masks (addTodo pg body) "Error adding todo:"
    "Unable to create todo. Please try again.".
Proof.
  intros w s e. open_action.
  destruct (finish (addTodoSchema body)); [|masked].
  destruct (hd None (faults w)); [masked|].
  destruct (acceptsText pg _); [|masked].
  destruct (existsb _ (table w)); masked.
Qed.

Lemma deleteTodo_masks (id : jsstring) :
  masks (deleteTodo isUuid pg id) "Error deleting todo:"
    "Unable to delete todo. Please try again.".
Proof.
  intros w s e. open_action.
  destruct (finish (todoIdOnlySchema isUuid id)); [|masked].
  destruct (hd None (faults w)); [masked|].
  destruct (_ =? 0); [masked|]. cbn [faults table generated].
  destruct (hd None (tl (faults w))); masked.
Qed.

Lemma toggleTodo_masks (id : jsstring) :
  masks (toggleTodo isUuid pg id) "Error toggling todo:"
    "Unable to update todo. Please try again.".
Proof.
  intros w s e. open_action.
  destruct (finish (todoIdOnlySchema isUuid id)); [|masked].
  destruct (hd None (faults w)); [masked|].
  destruct (_ =? 0); [masked|]. cbn [faults table generated].
  destruct (hd None (tl (faults w))); masked.
Qed.

Lemma editTodo_masks (id body : jsstring) :
  masks (editTodo isUuid pg id body) "Error editing todo:"
    "Unable to update todo. Please try again.".
Proof.
  intros w s e. open_action.
  destruct (finish (editTodoSchema isUuid id body)) as [[vi vt]|]; [|masked].
  destruct (hd None (faults w)); [masked|].
  destruct (_ =? 0); [masked|]. cbn [faults table generated].
  destruct (hd None (tl (faults w))); [masked|].
  destruct (acceptsText pg vt); masked.
Qed.

Ltac blinded w :=
  open_action; cbn [faults table generated reworded];
  destruct (faults w) as [|[e0|] [|[e1|] rest]]; cbn [hd tl map option_map];
  repeat match goal with
         | |- context [if ?c then _ else _] => destruct c
         end;
  reflexivity.

Lemma getData_blind : blind getData.
Proof. intros f w. blinded w. Qed.

Lemma addTodo_blind (body : jsstring) : blind (addTodo pg body).
Proof.
  intros f w. destruct (finish (addTodoSchema body)) eqn:V;
    open_action; rewrite V; [|reflexivity].
  cbn [faults table generated reworded].
  destruct (faults w) as [|[e0|] rest]; cbn [hd tl map option_map];
    try reflexivity; destruct (acceptsText pg _); try reflexivity;
    destruct (existsb _ (table w)); reflexivity.
Qed.

Lemma deleteTodo_blind (id : jsstring) : blind (deleteTodo isUuid pg id).
Proof.
  intros f w. destruct (finish (todoIdOnlySchema isUuid id)) eqn:V;
    open_action; rewrite V; [|reflexivity].
  blinded w.
Qed.

Lemma toggleTodo_blind (id : jsstring) : blind (toggleTodo isUuid pg id).
Proof.
  intros f w. destruct (finish (todoIdOnlySchema isUuid id)) eqn:V;
    open_action; rewrite V; [|reflexivity].
  blinded w.
Qed.

Lemma editTodo_blind (id body : jsstring) : blind (editTodo isUuid pg id body).
Proof.
  intros f w.
  destruct (finish (editTodoSchema isUuid id body)) as [[vi vt]|] eqn:V;
    open_action; rewrite V; [|reflexivity].
  blinded w.
Qed.

(** C7. Whenever a statement sent during [getData], [addTodo],
    [editTodo], [toggleTodo] or [deleteTodo] fails, the action answers a
    failure whose message is a fixed string of the action; the error itself
    goes to [console.error] only, and the answer is the same whatever the
    error says. *)
Theorem storage_failure_answers_generic_message :
  (masks getData "Error fetching todos:"
     "Unable to load todos. Please try again later."
   /\ blind getData)
  /\ (forall body,
         masks (addTodo pg body) "Error adding todo:"
           "Unable to create todo. Please try again."
         /\ blind (addTodo pg body))
  /\ (forall id body,
         masks (editTodo isUuid pg id body) "Error editing todo:"
           "Unable to update todo. Please try again."
         /\ blind (editTodo isUuid pg id body))
  /\ (forall id,
         masks (toggleTodo isUuid pg id) "Error toggling todo:"
           "Unable to update todo. Please try again."
         /\ blind (toggleTodo isUuid pg id))
  /\ (forall id,
         masks (deleteTodo isUuid pg id) "Error deleting todo:"
           "Unable to delete todo. Please try again."
         /\ blind (deleteTodo isUuid pg id)).
Proof.
  split; [split; [exact getData_masks | exact getData_blind]|].
  split; [intros; split; [apply addTodo_masks | apply addTodo_blind]|].
  split; [intros; split; [apply editTodo_masks | apply editTodo_blind]|].
  split; [intros; split; [apply toggleTodo_masks | apply toggleTodo_blind]|].
  intros; split; [apply deleteTodo_masks | apply deleteTodo_blind].
Qed.

(** The earlier copy of [getData] hands the error of the connection to
    its caller. *)
Lemma legacy_getData_echoes_error (w : world) (e : string) :
  hd None (faults w) = Some e -> fst (Legacy.getData w) = Failure e.
Proof.
  intros F. unfold Legacy.getData. open_action. now rewrite F.
Qed.

Lemma notDone_twice (key : jsstring) (rows : list todoType) :
  map (fun r => if hasId pg key r then notDone r else r)
    (map (fun r => if hasId pg key r then notDone r else r) rows)
  = rows.
Proof.
  induction rows as [|r rows IH]; [reflexivity|].
  cbn [map]. rewrite IH. f_equal.
  destruct (hasId pg key r) eqn:E; [|now rewrite E].
  assert (E' : hasId pg key (notDone r) = true) by exact E.
  rewrite E'. destruct r as [i t d]. unfold notDone. cbn [id text done].
  now rewrite negb_involutive.
Qed.

(** The rows an update matched and the rows it left alone are together
    the rows it found. *)
Lemma updated_perm (key : jsstring) (f : todoType -> todoType)
    (rows : list todoType) :
  Permutation (updated pg key f rows)
    (map (fun r => if hasId pg key r then f r else r) rows).
Proof.
  unfold updated. induction rows as [|r rows IH]; [constructor|].
  cbn [filter map]. destruct (hasId pg key r); cbn [negb].
  - cbn [map]. apply Permutation_sym, Permutation_cons_app.
    now apply Permutation_sym.
  - cbn [app]. now constructor.
Qed.

Lemma toggled_twice_perm (key : jsstring) (rows : list todoType) :
  Permutation (updated pg key notDone (updated pg key notDone rows)) rows.
Proof.
  rewrite updated_perm.
  rewrite (Permutation_map _ (updated_perm key notDone rows)).
  now rewrite notDone_twice.
Qed.

(** What a successful [toggleTodo] found and left behind. *)
Lemma toggleTodo_success (id : jsstring) (w w' : world) (u : unit) :
  toggleTodo isUuid pg id w = (Success u, w') ->
  isUuid id = true /\ present pg id w = true
  /\ table w' = updated pg id notDone (table w).
Proof.
  open_action.
  destruct (finish (todoIdOnlySchema isUuid id)) as [v|] eqn:V; [|discriminate].
  destruct (todoIdOnly_success _ V) as [-> Ok].
  destruct (hd None (faults w)); [discriminate|].
  destruct (_ =? 0) eqn:Found; [discriminate|].
  cbn [faults table generated].
  destruct (hd None (tl (faults w))); [discriminate|].
  intros H. inversion H; subst; clear H.
  split; [exact Ok|]. split; [|reflexivity].
  unfold present. destruct (existsb (hasId pg id) (table w)) eqn:E; [reflexivity|].
  apply lookup_empty_iff in E. congruence.
Qed.

(** A well-formed identifier of a stored row and two statements that go
    through are enough for [toggleTodo] to succeed. *)
Lemma toggleTodo_succeeds (id : jsstring) (w : world) :
  isUuid id = true -> present pg id w = true ->
  hd None (faults w) = None -> hd None (tl (faults w)) = None ->
  exists w', toggleTodo isUuid pg id w = (Success tt, w').
Proof.
  intros Ok Pres Up1 Up2. open_action.
  rewrite (validId_accepted isUuid id Ok), Up1.
  destruct (_ =? 0) eqn:Found.
  - apply lookup_empty_iff in Found. unfold present in Pres. congruence.
  - cbn [faults table generated]. rewrite Up2. eexists. reflexivity.
Qed.

End ActionProperties.

(* ------------------------------------------------------------------ *)
(** ** The optimistic controller *)

Section ControllerProperties.

Variable isUuid : jsstring -> bool.
Variable pg : database.


(** After a failed action a handler puts back the collection it closed
    over, whichever render it came from. *)
Lemma rollback_restores_the_snapshot (todos : list todoType)
    (p : page (list todoType)) (id : jsstring) (e : string) (w' : world) :
  deleteTodo isUuid pg id (server p) = (Failure e, w') ->
  state (deleteTodoItem isUuid pg todos id p) = todos.
Proof.
  intros F. unfold deleteTodoItem, await, setStateWith.
  cbn [server state timeline]. now rewrite F.
Qed.

(** C1. Rollback law.  Take any page and a handler of its current render
    ([todos] is the page's collection).  If the action behind
    [changeTodoText], [toggleIsTodoDone] or [deleteTodoItem] answers a
    failure, the collection after the call equals the collection before
    it: the optimistic update is followed by a state update that puts the
    snapshot back, and the error is reported.  The same holds for
    [performOptimisticUpdate] with any update and any server action. *)
Theorem failed_action_restores_collection (p : page (list todoType))
    (id body : jsstring) :
  (forall e w',
      editTodo isUuid pg id body (server p) = (Failure e, w') ->
      let q := changeTodoText isUuid pg (state p) id body p in
      state q = state p /\ server q = w'
      /\ timeline q
         = timeline p
           ++ [SetState (map (fun todo => if JS.eqb (Db.id todo) id
                                          then withText body todo else todo)
                           (state p));
               Invoke (CallEditTodo id body);
               SetState (state p); Report e])
  /\ (forall e w',
         toggleTodo isUuid pg id (server p) = (Failure e, w') ->
         let q := toggleIsTodoDone isUuid pg (state p) id p in
         state q = state p /\ server q = w'
         /\ timeline q
            = timeline p
              ++ [SetState (map (fun todo => if JS.eqb (Db.id todo) id
                                             then notDone todo else todo)
                              (state p));
                  Invoke (CallToggleTodo id);
                  SetState (state p); Report e])
  /\ (forall e w',
         deleteTodo isUuid pg id (server p) = (Failure e, w') ->
         let q := deleteTodoItem isUuid pg (state p) id p in
         state q = state p /\ server q = w'
         /\ timeline q
            = timeline p
              ++ [SetState (filter (fun todo => negb (JS.eqb (Db.id todo) id))
                              (state p));
                  Invoke (CallDeleteTodo id);
                  SetState (state p); Report e])
  /\ (forall (T : Type) (q : page T) (hasOnError : bool) (update : T -> T)
             (serverAction : Settled (bool * option string)),
         fst (fst (serverAction (server q))) = false ->
         state (performOptimisticUpdate (state q) hasOnError update
                  serverAction q)
         = state q).
Proof.
  split; [|split; [|split]].
  - intros e w' F. unfold changeTodoText, await, setStateWith.
    cbn [server state timeline]. rewrite F.
    unfold onError, setStateTo. cbn [server state timeline].
    repeat split. now rewrite <- !app_assoc.
  - intros e w' F. unfold toggleIsTodoDone, await, setStateWith.
    cbn [server state timeline]. rewrite F.
    unfold onError, setStateTo. cbn [server state timeline].
    repeat split. now rewrite <- !app_assoc.
  - intros e w' F. unfold deleteTodoItem, await, setStateWith.
    cbn [server state timeline]. rewrite F.
    unfold onError, setStateTo. cbn [server state timeline].
    repeat split. now rewrite <- !app_assoc.
  - intros T q hasOnError update serverAction F.
    unfold performOptimisticUpdate, await, setStateWith.
    cbn [server state timeline].
    destruct (serverAction (server q)) as [[ok err] w'].
    cbn [fst snd] in *. subst ok. cbn [negb].
    destruct err as [err|]; [destruct (hasOnError && nonEmpty err)|];
      reflexivity.
Qed.

(** C9. Toggle-pair.  Two calls of [toggleIsTodoDone] on the same
    identifier, the second made from the render that follows the first,
    both actions succeeding.  The table ends with the rows it started with,
    each with its original [done] (SQL [NOT] applied twice; a select may
    list them in another order), and the collection ends as it started
    (negation applied twice).  In between, the table holds, up to order,
    the rows with [done] negated in those of that uuid, and the collection
    holds its rows with [done] negated in those whose [id] is that very
    string. *)
Theorem toggle_twice_restores_done (p : page (list todoType))
    (id : jsstring) (w1 w2 : world) :
  toggleTodo isUuid pg id (server p) = (Success tt, w1) ->
  toggleTodo isUuid pg id w1 = (Success tt, w2) ->
  let p1 := toggleIsTodoDone isUuid pg (state p) id p in
  let p2 := toggleIsTodoDone isUuid pg (state p1) id p1 in
  (server p1 = w1
   /\ Permutation (table w1)
        (map (fun r => if hasId pg id r then notDone r else r)
           (table (server p)))
   /\ state p1
      = map (fun todo => if JS.eqb (Db.id todo) id then notDone todo else todo)
          (state p))
  /\ server p2 = w2
  /\ Permutation (table w2) (table (server p))
  /\ state p2 = state p.
Proof.
  intros T1 T2.
  destruct (toggleTodo_success isUuid pg _ _ T1) as (_ & _ & E1).
  destruct (toggleTodo_success isUuid pg _ _ T2) as (_ & _ & E2).
  assert (S1 : toggleIsTodoDone isUuid pg (state p) id p
               = {| server := w1;
                    state := map (fun todo => if JS.eqb (Db.id todo) id
                                              then notDone todo else todo)
                               (state p);
                    timeline := (timeline p
                                 ++ [SetState
                                       (map (fun todo =>
                                               if JS.eqb (Db.id todo) id
                                               then notDone todo else todo)
                                          (state p))])
                                ++ [Invoke (CallToggleTodo id)] |}).
  { unfold toggleIsTodoDone, await, setStateWith.
    cbn [server state timeline]. now rewrite T1. }
  cbn zeta. rewrite S1. cbn [server state timeline].
  split; [split; [reflexivity|split; [|reflexivity]]|].
  { rewrite E1. apply updated_perm. }
  unfold toggleIsTodoDone, await, setStateWith.
  cbn [server state timeline]. rewrite T2. cbn [server state timeline].
  split; [reflexivity|]. split.
  - rewrite E2, E1. apply toggled_twice_perm.
  - apply (negated_twice (fun i => JS.eqb i id) (state p)).
Qed.

End ControllerProperties.

(* ------------------------------------------------------------------ *)
(** ** The error display *)

(** A delay that fits in 31 bits is the delay of the timer; a larger one
    below 2^32 makes the timer fire at once. *)
Lemma timerDelay_cases (ms : N) :
  ((ms <= 2147483647)%N -> timerDelay ms = ms)
  /\ ((2147483647 < ms < 4294967296)%N -> timerDelay ms = 0%N).
Proof.
  unfold timerDelay. cbv zeta. split; intros B.
  - rewrite N.mod_small by lia.
    replace (ms <? 2147483648)%N with true; [reflexivity|].
    symmetry. apply N.ltb_lt. lia.
  - rewrite N.mod_small by lia.
    replace (ms <? 2147483648)%N with false; [reflexivity|].
    symmetry. apply N.ltb_ge. lia.
Qed.

(** A report made while no callback is pending stays on display until the
    delay of its timer has passed and is cleared from then on. *)
Lemma lone_error_shows_then_clears (dismissAfter ms : N) (message : string)
    (st : errorState) :
  timers st = [] ->
  error (elapse ms (showError dismissAfter message st))
  = if (timerDelay dismissAfter <=? ms)%N then None else Some message.
Proof.
  intros E. unfold elapse, showError. cbn [error timers now].
  rewrite E. cbn [app existsb orb].
  rewrite orb_false_r.
  destruct (timerDelay dismissAfter <=? ms)%N eqn:D.
  - apply N.leb_le in D.
    replace (now st + timerDelay dismissAfter <=? now st + ms)%N with true
      by (symmetry; apply N.leb_le; lia).
    reflexivity.
  - apply N.leb_gt in D.
    replace (now st + timerDelay dismissAfter <=? now st + ms)%N with false
      by (symmetry; apply N.leb_gt; lia).
    reflexivity.
Qed.

(** C8 (the code departs from it). "A" is reported at 0 ms and "B" at
    3000 ms, both with the 5000 ms delay.  "B" is on display right after
    its report, and 2000 ms later the callback armed for "A" has cleared
    it, 3000 ms before its own delay ends; the callback armed for "B" is
    still pending. *)
Theorem earlier_timer_clears_later_error :
  let reportedB :=
    showError defaultDismissAfter "B"
      (elapse 3000 (showError defaultDismissAfter "A" useError_initial)) in
  error reportedB = Some "B"%string
  /\ now reportedB = 3000%N
  /\ error (elapse 1999 reportedB) = Some "B"%string
  /\ error (elapse 2000 reportedB) = None
  /\ now (elapse 2000 reportedB) = 5000%N
  /\ timers (elapse 2000 reportedB) = [8000%N].
Proof. repeat split. Qed.

(* ------------------------------------------------------------------ *)
(** ** The [AddTodo] component *)

Import AddTodo.

Lemma handleAdd_blank (c : component) :
  trim (input c) = [] -> handleAdd c = c.
Proof.
  intros E. unfold handleAdd. rewrite E. cbn [truthy negb].
  now rewrite orb_true_r.
Qed.

Lemma handleAdd_preserves (c : component) :
  consistent c -> guarded c -> consistent (handleAdd c) /\ guarded (handleAdd c).
Proof.
  intros C G. unfold handleAdd.
  destruct (isLoading c) eqn:L; cbn [orb]; [now split|].
  destruct (trim (input c)) as [|x r] eqn:E; cbn [truthy negb]; [now split|].
  destruct C as [[_ F] | [L' _]]; [|congruence].
  split.
  - right. cbn [isLoading inFlight]. now rewrite F.
  - unfold guarded. cbn [created]. apply Forall_app. split; [exact G|].
    constructor; [|constructor]. cbn [fst snd]. rewrite E. split;
      [discriminate | exact F].
Qed.

Lemma step_preserves (c : component) (a : action) :
  consistent c -> guarded c -> consistent (step c a) /\ guarded (step c a).
Proof.
  intros C G. destruct a as [value | | key | resolved]; cbn [step].
  - split; [exact C | exact G].
  - now apply handleAdd_preserves.
  - unfold handleKeyPress.
    destruct (String.eqb key "Enter" && negb (isLoading c)
              && truthy (trim (input c)));
      [now apply handleAdd_preserves | now split].
  - unfold handleAdd_settled. destruct (inFlight c) as [|n] eqn:F; [now split|].
    split; [|exact G]. left. cbn [isLoading inFlight].
    destruct C as [[_ F'] | [_ F']]; [congruence|].
    split; [reflexivity | congruence].
Qed.

Lemma run_from_preserves (actions : list action) (c : component) :
  consistent c -> guarded c ->
  consistent (fold_left step actions c) /\ guarded (fold_left step actions c).
Proof.
  revert c. induction actions as [|a actions IH]; intros c C G; cbn [fold_left].
  - now split.
  - destruct (step_preserves a C G) as [C' G']. now apply IH.
Qed.

(** C10. Whatever the user does, every call the component makes to
    [createTodo] carries a text that does not trim to empty and is made
    while no earlier call is in flight; and in any state whose input trims
    to empty, [handleAdd] returns without a call, the Enter key does
    nothing, and the Add button is disabled. *)
Theorem addTodo_calls_are_guarded (actions : list action) :
  Forall (fun made => trim (fst made) <> [] /\ snd made = 0)
    (created (run actions))
  /\ inFlight (run actions) <= 1
  /\ (forall c : component,
         trim (input c) = [] ->
         handleAdd c = c
         /\ (forall key, handleKeyPress key c = c)
         /\ addDisabled c = true).
Proof.
  assert (I : consistent (run actions) /\ guarded (run actions)).
  { apply run_from_preserves.
    - left. now split.
    - constructor. }
  destruct I as [C G]. split; [exact G|]. split.
  - destruct C as [[_ F] | [_ F]]; rewrite F; lia.
  - intros c E. split; [now apply handleAdd_blank|]. split.
    + intros key. unfold handleKeyPress. rewrite E. cbn [truthy].
      now rewrite andb_false_r.
    + unfold addDisabled. rewrite E. cbn [truthy negb]. apply orb_true_r.
Qed.

(* ------------------------------------------------------------------ *)
(** ** The properties on concrete worlds *)

Import Sample.

(** An input of 501 letters is refused, and the 500 letters that pass
    validation pass it again unchanged. *)
Lemma todoTextSchema_trims_and_bounds_witness :
  (exists issues, finish (todoTextSchema (repeat 97%N 501)) = ParseError issues)
  /\ trim (lit "  Buy milk  ") = lit "Buy milk"
  /\ finish (todoTextSchema (lit "Buy milk")) = ParseSuccess (lit "Buy milk").
Proof.
  split.
  - apply (proj1 (todoTextSchema_trims_and_bounds (repeat 97%N 501))).
    right. vm_compute. lia.
  - destruct (proj2 (proj2 (todoTextSchema_trims_and_bounds (lit "  Buy milk  ")))
                (lit "Buy milk") eq_refl) as (_ & T & V).
    split; [reflexivity | exact V].
Defined.

(** [deleteTodo] of an unknown, well-formed identifier: the message the
    code returns ends with a full stop, so it is not "Todo not found". *)
Lemma not_found_message_counterexample :
  uuidFormat unknownId = true
  /\ present postgres unknownId milkWorld = false
  /\ fst (deleteTodo uuidFormat postgres unknownId milkWorld) = Failure "Todo not found."
  /\ fst (deleteTodo uuidFormat postgres unknownId milkWorld) <> Failure "Todo not found"
  /\ fst (toggleTodo uuidFormat postgres unknownId milkWorld) <> Failure "Todo not found"
  /\ fst (editTodo uuidFormat postgres unknownId (lit "x") milkWorld)
     <> Failure "Todo not found".
Proof. repeat split; discriminate. Qed.

Lemma absent_id_reports_not_found_witness :
  fst (editTodo uuidFormat postgres unknownId (lit "x") milkWorld)
  = Failure "Todo not found."
  /\ fst (toggleTodo uuidFormat postgres unknownId milkWorld) = Failure "Todo not found."
  /\ table (snd (deleteTodo uuidFormat postgres unknownId milkWorld)) = [milk]
  /\ issued milkWorld (snd (deleteTodo uuidFormat postgres unknownId milkWorld))
     = [(SelectById unknownId, None)].
Proof.
  destruct (absent_id_reports_not_found uuidFormat postgres milkWorld unknownId
              eq_refl eq_refl eq_refl) as (E & T & D).
  split.
  - apply (E (lit "x")); [discriminate | vm_compute; lia].
  - split; [apply T|]. split; apply D.
Defined.



Lemma validation_failure_touches_no_store_witness :
  addTodo postgres (lit "   ") milkWorld
  = (Failure "Todo text cannot be empty", milkWorld)
  /\ editTodo uuidFormat postgres (lit "999") (lit "") milkWorld
     = (Failure "Todo ID must be a valid UUID, Todo text cannot be empty",
        milkWorld)
  /\ toggleTodo uuidFormat postgres (lit "-5") milkWorld
     = (Failure "Todo ID must be a valid UUID", milkWorld)
  /\ deleteTodo uuidFormat postgres (lit "0") milkWorld
     = (Failure "Todo ID must be a valid UUID", milkWorld).
Proof.
  destruct (validation_failure_touches_no_store uuidFormat postgres milkWorld)
    as (A & E & T & D).
  split; [|split; [|split]].
  - apply (A (lit "   ") ["Todo text cannot be empty"%string]). reflexivity.
  - apply (E (lit "999") (lit "")
             ["Todo ID must be a valid UUID"%string;
              "Todo text cannot be empty"%string]).
    reflexivity.
  - apply (T (lit "-5") ["Todo ID must be a valid UUID"%string]). reflexivity.
  - apply (D (lit "0") ["Todo ID must be a valid UUID"%string]). reflexivity.
Defined.

Lemma storage_failure_answers_generic_message_witness :
  fst (getData (brokenWorld "ECONNREFUSED 10.0.0.5:5432"))
  = Failure "Unable to load todos. Please try again later."
  /\ console (snd (toggleTodo uuidFormat postgres milkId
                     (brokenWorld "ECONNREFUSED 10.0.0.5:5432")))
     = [("Error toggling todo:"%string, "ECONNREFUSED 10.0.0.5:5432"%string)]
  /\ fst (addTodo postgres (lit "x") (brokenWorld "password authentication failed"))
     = fst (addTodo postgres (lit "x") (brokenWorld "ECONNREFUSED 10.0.0.5:5432")).
Proof.
  destruct (storage_failure_answers_generic_message uuidFormat postgres)
    as ((G & _) & A & _ & T & _).
  split; [|split].
  - apply (G (brokenWorld "ECONNREFUSED 10.0.0.5:5432") SelectAll
             "ECONNREFUSED 10.0.0.5:5432"%string).
    left. reflexivity.
  - apply (proj1 (T milkId) (brokenWorld "ECONNREFUSED 10.0.0.5:5432")
             (SelectById milkId) "ECONNREFUSED 10.0.0.5:5432"%string).
    left. reflexivity.
  - apply (proj2 (A (lit "x"))
             (fun _ => "password authentication failed"%string)
             (brokenWorld "ECONNREFUSED 10.0.0.5:5432")).
Defined.

Lemma failed_action_restores_collection_witness :
  fst (toggleTodo uuidFormat postgres milkId (server brokenPage))
  = Failure "Unable to update todo. Please try again."
  /\ state (toggleIsTodoDone uuidFormat postgres (state brokenPage) milkId brokenPage)
     = [milk]
  /\ state (deleteTodoItem uuidFormat postgres (state milkPage) unknownId milkPage)
     = [milk].
Proof.
  destruct (failed_action_restores_collection uuidFormat postgres brokenPage milkId [])
    as (_ & T & _).
  destruct (failed_action_restores_collection uuidFormat postgres milkPage unknownId [])
    as (_ & _ & D & _).
  split; [reflexivity|]. split.
  - refine (proj1 (T _ _ _)). reflexivity.
  - refine (proj1 (D _ _ _)). reflexivity.
Defined.

Lemma toggle_twice_restores_done_witness :
  let p1 := toggleIsTodoDone uuidFormat postgres (state pantryPage) milkId
              pantryPage in
  let p2 := toggleIsTodoDone uuidFormat postgres (state p1) milkId p1 in
  map done (state p1) = [true; true]
  /\ table (server p1) = [eggs; notDone milk]
  /\ table (server p2) = [eggs; milk]
  /\ Permutation (table (server p2)) [milk; eggs]
  /\ state p2 = [milk; eggs].
Proof.
  cbn zeta. split; [reflexivity|]. split; [reflexivity|]. split; [reflexivity|].
  refine (proj2 (proj2 (@toggle_twice_restores_done uuidFormat postgres
                          pantryPage milkId _ _ _ _))); reflexivity.
Defined.

Lemma addTodo_calls_are_guarded_witness :
  created (run [Change (lit "  "); Click; Change (lit " a "); Click; Click;
                KeyPress "Enter"; Settle true; Click])
  = [(lit " a ", 0)]
  /\ handleAdd (handleInput (lit "   ") mount) = handleInput (lit "   ") mount
  /\ addDisabled (handleInput (lit "   ") mount) = true.
Proof.
  split; [reflexivity|].
  destruct (proj2 (proj2 (addTodo_calls_are_guarded []))
              (handleInput (lit "   ") mount) eq_refl) as (H & _ & D).
  split; [exact H | exact D].
Defined.

(* ================================================================== *)
(** * Further properties of the code *)
(* ================================================================== *)

(* ------------------------------------------------------------------ *)
(** ** What the actions do to the table *)

Lemma finish_value {A} (r : A * list string) (v : A) :
  finish r = ParseSuccess v -> v = fst r.
Proof.
  unfold finish. destruct (snd r); [|discriminate].
  intros H. now injection H.
Qed.

Lemma eqb_eq (a b : jsstring) : JS.eqb a b = true <-> a = b.
Proof.
  unfold JS.eqb. destruct (list_eq_dec N.eq_dec a b); split;
    congruence.
Qed.

(** A row that carries the very spelling of a key is a row of that uuid. *)
Lemma In_present (pg : database) (key : jsstring) (rows : list todoType) :
  In key (map id rows) -> existsb (hasId pg key) rows = true.
Proof.
  rewrite existsb_exists, in_map_iff. unfold hasId.
  intros (r & H1 & H2). exists r. split; [exact H2|].
  apply eqb_eq. now rewrite H1.
Qed.

Section ActionLaws.

Variable isUuid : jsstring -> bool.
Variable pg : database.

Lemma getData_table (w : world) :
  table (snd (getData w)) = table w
  /\ revalidated (snd (getData w)) = revalidated w.
Proof.
  open_action. destruct (hd None (faults w)); split; reflexivity.
Qed.

Lemma addTodo_table (body : jsstring) (w : world) :
  let r := addTodo pg body w in
  match fst r with
  | Success item =>
      table (snd r) = table w ++ [item]
      /\ item = {| id := gen_random_uuid pg (generated w);
                   text := trim body; done := false |}
      /\ wellFormedText (trim body)
      /\ present pg (id item) w = false
      /\ revalidated (snd r) = revalidated w ++ ["/"%string]
  | Failure _ =>
      table (snd r) = table w /\ revalidated (snd r) = revalidated w
  end.
Proof.
  cbn zeta. open_action. unfold addTodoSchema.
  destruct (finish (todoTextSchema body)) as [v|issues] eqn:V;
    [|split; reflexivity].
  destruct (todoTextSchema_success body V) as (-> & Hne & Hle).
  destruct (hd None (faults w)); [split; reflexivity|].
  destruct (acceptsText pg (trim body)); [|split; reflexivity].
  destruct (existsb _ (table w)) eqn:Fresh; [split; reflexivity|].
  cbn [fst snd table revalidated].
  repeat split; try assumption. apply trim_idempotent.
Qed.

Lemma toggleTodo_table (id : jsstring) (w : world) :
  let r := toggleTodo isUuid pg id w in
  match fst r with
  | Success _ =>
      table (snd r) = updated pg id notDone (table w)
      /\ revalidated (snd r) = revalidated w ++ ["/"%string]
  | Failure _ =>
      table (snd r) = table w /\ revalidated (snd r) = revalidated w
  end.
Proof.
  cbn zeta. open_action.
  destruct (finish (todoIdOnlySchema isUuid id)) as [v|] eqn:V;
    [|split; reflexivity].
  apply finish_value in V. cbn in V. subst v.
  destruct (hd None (faults w)); [split; reflexivity|].
  destruct (_ =? 0); [split; reflexivity|]. cbn [faults table generated].
  destruct (hd None (tl (faults w))); split; reflexivity.
Qed.

Lemma deleteTodo_table (id : jsstring) (w : world) :
  let r := deleteTodo isUuid pg id w in
  match fst r with
  | Success _ =>
      table (snd r) = filter (fun row => negb (hasId pg id row)) (table w)
      /\ revalidated (snd r) = revalidated w ++ ["/"%string]
  | Failure _ =>
      table (snd r) = table w /\ revalidated (snd r) = revalidated w
  end.
Proof.
  cbn zeta. open_action.
  destruct (finish (todoIdOnlySchema isUuid id)) as [v|] eqn:V;
    [|split; reflexivity].
  apply finish_value in V. cbn in V. subst v.
  destruct (hd None (faults w)); [split; reflexivity|].
  destruct (_ =? 0); [split; reflexivity|]. cbn [faults table generated].
  destruct (hd None (tl (faults w))); split; reflexivity.
Qed.

Lemma editTodo_table (id body : jsstring) (w : world) :
  let r := editTodo isUuid pg id body w in
  match fst r with
  | Success _ =>
      table (snd r) = updated pg id (withText (trim body)) (table w)
      /\ wellFormedText (trim body)
      /\ revalidated (snd r) = revalidated w ++ ["/"%string]
  | Failure _ =>
      table (snd r) = table w /\ revalidated (snd r) = revalidated w
  end.
Proof.
  cbn zeta. open_action.
  destruct (finish (editTodoSchema isUuid id body)) as [[vi vt]|] eqn:V;
    [|split; reflexivity].
  assert (T : wellFormedText (trim body)).
  { unfold finish, editTodoSchema, todoIdSchema in V. cbn [fst snd] in V.
    destruct (isUuid id); cbn [app] in V; [|discriminate].
    destruct (snd (todoTextSchema body)) eqn:I; [|discriminate].
    assert (F : finish (todoTextSchema body) = ParseSuccess (trim body))
      by (unfold finish; now rewrite I).
    destruct (todoTextSchema_success body F) as (_ & Hne & Hle).
    repeat split; [apply trim_idempotent | exact Hne | exact Hle]. }
  apply finish_value in V. cbn in V. injection V as -> ->.
  destruct (hd None (faults w)); [split; reflexivity|].
  destruct (_ =? 0); [split; reflexivity|]. cbn [faults table generated].
  destruct (hd None (tl (faults w))); [split; reflexivity|].
  destruct (acceptsText pg (trim body)); [|split; reflexivity].
  cbn [fst snd table revalidated]. repeat split; apply T.
Qed.

Lemma ids_after_map (f : todoType -> todoType) (rows : list todoType) :
  (forall row, id (f row) = id row) -> map id (map f rows) = map id rows.
Proof.
  intros H. rewrite map_map. apply map_ext. exact H.
Qed.

Lemma NoDup_map_filter {A B} (g : A -> B) (f : A -> bool) (l : list A) :
  NoDup (map g l) -> NoDup (map g (filter f l)).
Proof.
  induction l as [|x l IH]; cbn [map filter]; [trivial|].
  intros N. inversion N as [|? ? Hx Hl]; subst.
  destruct (f x); [|now apply IH].
  cbn [map]. constructor; [|now apply IH].
  intros In'. apply Hx. apply in_map_iff in In'.
  destruct In' as (y & E & Hy). apply filter_In in Hy.
  apply in_map_iff. exists y. tauto.
Qed.

Lemma toggled_id (key : jsstring) (row : todoType) :
  id (if hasId pg key row then notDone row else row) = id row.
Proof. now destruct (hasId pg key row). Qed.

Lemma retexted_id (key t : jsstring) (row : todoType) :
  id (if hasId pg key row then withText t row else row) = id row.
Proof. now destruct (hasId pg key row). Qed.

(** X1. Primary key.  If no two rows of the table carry the same
    identifier, the same holds after [getData], [addTodo], [editTodo],
    [toggleTodo] and [deleteTodo], whatever their arguments and whether
    they succeed or fail. *)
Theorem actions_keep_ids_unique (w : world) :
  uniqueIds (table w) ->
  uniqueIds (table (snd (getData w)))
  /\ (forall body, uniqueIds (table (snd (addTodo pg body w))))
  /\ (forall id body, uniqueIds (table (snd (editTodo isUuid pg id body w))))
  /\ (forall id, uniqueIds (table (snd (toggleTodo isUuid pg id w))))
  /\ (forall id, uniqueIds (table (snd (deleteTodo isUuid pg id w)))).
Proof.
  unfold uniqueIds. intros U.
  split; [now rewrite (proj1 (getData_table w))|].
  split; [intros body | split; [intros key body | split; intros key]].
  - pose proof (addTodo_table body w) as T. cbn zeta in T.
    destruct (fst (addTodo pg body w)) as [item|e].
    + destruct T as (-> & _ & _ & Fresh & _).
      rewrite map_app. cbn [map]. apply NoDup_app; [exact U | |].
      * repeat constructor. intros [].
      * intros key Hin [<-|[]]. unfold present in Fresh.
        apply (In_present pg) in Hin. congruence.
    + now rewrite (proj1 T).
  - pose proof (editTodo_table key body w) as T. cbn zeta in T.
    destruct (fst (editTodo isUuid pg key body w)).
    + destruct T as (-> & _). rewrite updated_perm.
      rewrite ids_after_map; [exact U|].
      intros row. apply retexted_id.
    + now rewrite (proj1 T).
  - pose proof (toggleTodo_table key w) as T. cbn zeta in T.
    destruct (fst (toggleTodo isUuid pg key w)).
    + destruct T as (-> & _). rewrite updated_perm.
      rewrite ids_after_map; [exact U|].
      intros row. apply toggled_id.
    + now rewrite (proj1 T).
  - pose proof (deleteTodo_table key w) as T. cbn zeta in T.
    destruct (fst (deleteTodo isUuid pg key w)).
    + destruct T as (-> & _). now apply NoDup_map_filter.
    + now rewrite (proj1 T).
Qed.

(** X2. Stored texts.  If every row's text is trimmed, non-empty and at
    most 500 code units long, the same holds after each of the five
    actions: what [addTodo] and [editTodo] write is the validated text,
    and the other actions leave texts alone. *)
Theorem actions_keep_texts_well_formed (w : world) :
  wellFormedRows (table w) ->
  wellFormedRows (table (snd (getData w)))
  /\ (forall body, wellFormedRows (table (snd (addTodo pg body w))))
  /\ (forall id body, wellFormedRows (table (snd (editTodo isUuid pg id body w))))
  /\ (forall id, wellFormedRows (table (snd (toggleTodo isUuid pg id w))))
  /\ (forall id, wellFormedRows (table (snd (deleteTodo isUuid pg id w)))).
Proof.
  unfold wellFormedRows. intros W.
  split; [now rewrite (proj1 (getData_table w))|].
  split; [intros body | split; [intros key body | split; intros key]].
  - pose proof (addTodo_table body w) as T. cbn zeta in T.
    destruct (fst (addTodo pg body w)) as [item|e].
    + destruct T as (-> & -> & V & _).
      apply Forall_app. split; [exact W|].
      constructor; [exact V | constructor].
    + now rewrite (proj1 T).
  - pose proof (editTodo_table key body w) as T. cbn zeta in T.
    destruct (fst (editTodo isUuid pg key body w)).
    + destruct T as (-> & V & _). rewrite updated_perm. apply Forall_map.
      apply Forall_impl with (2 := W). intros row Hrow.
      now destruct (hasId pg key row).
    + now rewrite (proj1 T).
  - pose proof (toggleTodo_table key w) as T. cbn zeta in T.
    destruct (fst (toggleTodo isUuid pg key w)).
    + destruct T as (-> & _). rewrite updated_perm. apply Forall_map.
      apply Forall_impl with (2 := W). intros row Hrow.
      now destruct (hasId pg key row).
    + now rewrite (proj1 T).
  - pose proof (deleteTodo_table key w) as T. cbn zeta in T.
    destruct (fst (deleteTodo isUuid pg key w)).
    + destruct T as (-> & _). apply Forall_forall. intros row Hin.
      apply filter_In in Hin. rewrite Forall_forall in W. now apply W.
    + now rewrite (proj1 T).
Qed.

(** X3. A failed action changes no row.  Whenever [addTodo], [editTodo],
    [toggleTodo] or [deleteTodo] answers a failure (validation, unknown
    identifier, or a statement that failed), the table is the one it
    started from. *)
Theorem failed_action_leaves_table (w : world) (e : string) :
  (forall body, fst (addTodo pg body w) = Failure e ->
                table (snd (addTodo pg body w)) = table w)
  /\ (forall id body, fst (editTodo isUuid pg id body w) = Failure e ->
                      table (snd (editTodo isUuid pg id body w)) = table w)
  /\ (forall id, fst (toggleTodo isUuid pg id w) = Failure e ->
                 table (snd (toggleTodo isUuid pg id w)) = table w)
  /\ (forall id, fst (deleteTodo isUuid pg id w) = Failure e ->
                 table (snd (deleteTodo isUuid pg id w)) = table w).
Proof.
  split; [intros body F | split; [intros key body F | split; intros key F]].
  - pose proof (addTodo_table body w) as T. cbn zeta in T.
    rewrite F in T. apply T.
  - pose proof (editTodo_table key body w) as T. cbn zeta in T.
    rewrite F in T. apply T.
  - pose proof (toggleTodo_table key w) as T. cbn zeta in T.
    rewrite F in T. apply T.
  - pose proof (deleteTodo_table key w) as T. cbn zeta in T.
    rewrite F in T. apply T.
Qed.

(** Whether an answer is a success. *)
Lemma revalidation_of {T} (r : ActionResponse T) (before after : list string) :
  match r with
  | Success _ => after = before ++ ["/"%string]
  | Failure _ => after = before
  end ->
  after = before ++ (if match r with Success _ => true | Failure _ => false end
                     then ["/"%string] else []).
Proof. destruct r; intros ->; [reflexivity | now rewrite app_nil_r]. Qed.

(** X4. Revalidation.  Each mutating action calls [revalidatePath("/")]
    exactly once when it succeeds and never when it fails; [getData] never
    calls it. *)
Theorem revalidates_exactly_on_success (w : world) :
  revalidated (snd (getData w)) = revalidated w
  /\ (forall body,
         let r := addTodo pg body w in
         revalidated (snd r)
         = revalidated w
           ++ (if match fst r with Success _ => true | Failure _ => false end
               then ["/"%string] else []))
  /\ (forall id body,
         let r := editTodo isUuid pg id body w in
         revalidated (snd r)
         = revalidated w
           ++ (if match fst r with Success _ => true | Failure _ => false end
               then ["/"%string] else []))
  /\ (forall id,
         let r := toggleTodo isUuid pg id w in
         revalidated (snd r)
         = revalidated w
           ++ (if match fst r with Success _ => true | Failure _ => false end
               then ["/"%string] else []))
  /\ (forall id,
         let r := deleteTodo isUuid pg id w in
         revalidated (snd r)
         = revalidated w
           ++ (if match fst r with Success _ => true | Failure _ => false end
               then ["/"%string] else [])).
Proof.
  split; [apply getData_table|].
  split; [intros body | split; [intros key body | split; intros key]];
    cbn zeta; apply revalidation_of.
  - pose proof (addTodo_table body w) as T. cbn zeta in T.
    destruct (fst (addTodo pg body w)); apply T.
  - pose proof (editTodo_table key body w) as T. cbn zeta in T.
    destruct (fst (editTodo isUuid pg key body w)); apply T.
  - pose proof (toggleTodo_table key w) as T. cbn zeta in T.
    destruct (fst (toggleTodo isUuid pg key w)); apply T.
  - pose proof (deleteTodo_table key w) as T. cbn zeta in T.
    destruct (fst (deleteTodo isUuid pg key w)); apply T.
Qed.

Lemma invalidId_rejected (id : jsstring) :
  isUuid id = false ->
  finish (todoIdOnlySchema isUuid id)
  = ParseError ["Todo ID must be a valid UUID"%string].
Proof.
  intros H. unfold finish, todoIdOnlySchema, todoIdSchema. cbn [fst snd].
  now rewrite H.
Qed.

Lemma lookup_found (key : jsstring) (rows : list todoType) :
  (List.length (firstn 1 (filter (hasId pg key) rows)) =? 0) = false
  <-> existsb (hasId pg key) rows = true.
Proof.
  pose proof (lookup_empty_iff pg key rows) as L.
  destruct (_ =? 0); destruct (existsb (hasId pg key) rows);
    intuition congruence.
Qed.

(** Settles one branch of a success condition. *)
Ltac settle_branch :=
  cbn [fst snd];
  split;
  [ intros H; try discriminate H; repeat split; congruence
  | intros H; decompose [and] H; try congruence; try reflexivity ].

Lemma toggleTodo_success_iff (id : jsstring) (w : world) :
  fst (toggleTodo isUuid pg id w) = Success tt
  <-> (isUuid id = true /\ present pg id w = true
       /\ hd None (faults w) = None /\ hd None (tl (faults w)) = None).
Proof.
  unfold present. open_action. destruct (isUuid id) eqn:Ok.
  - rewrite (validId_accepted isUuid id Ok).
    destruct (hd None (faults w)) eqn:F1; [settle_branch|].
    destruct (_ =? 0) eqn:L.
    + apply lookup_empty_iff in L. settle_branch.
    + apply lookup_found in L. cbn [faults table generated].
      destruct (hd None (tl (faults w))) eqn:F2; settle_branch.
  - rewrite (@invalidId_rejected id Ok). settle_branch.
Qed.

Lemma deleteTodo_success_iff (id : jsstring) (w : world) :
  fst (deleteTodo isUuid pg id w) = Success tt
  <-> (isUuid id = true /\ present pg id w = true
       /\ hd None (faults w) = None /\ hd None (tl (faults w)) = None).
Proof.
  unfold present. open_action. destruct (isUuid id) eqn:Ok.
  - rewrite (validId_accepted isUuid id Ok).
    destruct (hd None (faults w)) eqn:F1; [settle_branch|].
    destruct (_ =? 0) eqn:L.
    + apply lookup_empty_iff in L. settle_branch.
    + apply lookup_found in L. cbn [faults table generated].
      destruct (hd None (tl (faults w))) eqn:F2; settle_branch.
  - rewrite (@invalidId_rejected id Ok). settle_branch.
Qed.

Lemma editTodo_rejected (id body : jsstring) :
  ~ (isUuid id = true /\ trim body <> []
     /\ List.length (trim body) <= max_text_length) ->
  exists issues, finish (editTodoSchema isUuid id body) = ParseError issues.
Proof.
  intros Bad. destruct (finish (editTodoSchema isUuid id body)) as [v|issues] eqn:V;
    [|now exists issues].
  exfalso. apply Bad.
  unfold finish, editTodoSchema, todoIdSchema in V. cbn [fst snd] in V.
  destruct (isUuid id); cbn [app] in V; [|discriminate].
  destruct (snd (todoTextSchema body)) eqn:I; [|discriminate].
  assert (F : finish (todoTextSchema body) = ParseSuccess (trim body))
    by (unfold finish; now rewrite I).
  destruct (todoTextSchema_success body F) as (_ & Hne & Hle). now repeat split.
Qed.

Lemma editTodo_success_iff (id body : jsstring) (w : world) :
  fst (editTodo isUuid pg id body w) = Success tt
  <-> (isUuid id = true /\ trim body <> []
       /\ List.length (trim body) <= max_text_length
       /\ present pg id w = true
       /\ hd None (faults w) = None /\ hd None (tl (faults w)) = None
       /\ acceptsText pg (trim body) = true).
Proof.
  unfold present.
  destruct (isUuid id) eqn:Ok.
  - destruct (trim body) as [|c r] eqn:E.
    + destruct (@editTodo_rejected id body) as [issues V];
        [rewrite Ok, E; intros (_ & H & _); now apply H|].
      open_action. rewrite V. settle_branch.
    + destruct (Nat.le_gt_cases (List.length (c :: r)) max_text_length) as [Le|Gt].
      * assert (V : finish (editTodoSchema isUuid id body)
                    = ParseSuccess (id, trim body)).
        { apply validEdit_accepted; rewrite ?E; [exact Ok | discriminate | exact Le]. }
        open_action. rewrite V, E.
        destruct (hd None (faults w)) eqn:F1; [settle_branch|].
        destruct (_ =? 0) eqn:L.
        -- apply lookup_empty_iff in L. settle_branch.
        -- apply lookup_found in L. cbn [faults table generated].
           destruct (hd None (tl (faults w))) eqn:F2; [settle_branch|].
           destruct (acceptsText pg (c :: r)) eqn:A; settle_branch.
      * destruct (@editTodo_rejected id body) as [issues V];
          [rewrite E; intros (_ & _ & H); lia|].
        open_action. rewrite V. settle_branch. lia.
  - destruct (@editTodo_rejected id body) as [issues V];
      [rewrite Ok; intros (H & _); discriminate|].
    open_action. rewrite V. settle_branch.
Qed.

(** X5. When the identifier actions succeed.  [toggleTodo] and
    [deleteTodo] succeed exactly when the identifier is well formed, a row
    of the table has that uuid, and both the existence check and the
    mutation go through; [editTodo] needs in addition a text that is
    non-empty and at most 500 code units long once trimmed, and that the
    text column takes. *)
Theorem identifier_actions_succeed_iff (id body : jsstring) (w : world) :
  (fst (editTodo isUuid pg id body w) = Success tt
   <-> (isUuid id = true /\ trim body <> []
        /\ List.length (trim body) <= 500
        /\ present pg id w = true
        /\ hd None (faults w) = None /\ hd None (tl (faults w)) = None
        /\ acceptsText pg (trim body) = true))
  /\ (fst (toggleTodo isUuid pg id w) = Success tt
      <-> (isUuid id = true /\ present pg id w = true
           /\ hd None (faults w) = None /\ hd None (tl (faults w)) = None))
  /\ (fst (deleteTodo isUuid pg id w) = Success tt
      <-> (isUuid id = true /\ present pg id w = true
           /\ hd None (faults w) = None /\ hd None (tl (faults w)) = None)).
Proof.
  split; [apply editTodo_success_iff|].
  split; [apply toggleTodo_success_iff | apply deleteTodo_success_iff].
Qed.

(** X6. When [addTodo] succeeds: exactly when the trimmed text is
    non-empty and at most 500 code units long, the insert reaches the
    database, the text column takes the trimmed text, and no row of the
    table has the uuid the database draws. *)
Theorem addTodo_succeeds_iff (body : jsstring) (w : world) :
  (exists item, fst (addTodo pg body w) = Success item)
  <-> (trim body <> [] /\ List.length (trim body) <= 500
       /\ hd None (faults w) = None
       /\ acceptsText pg (trim body) = true
       /\ present pg (gen_random_uuid pg (generated w)) w = false).
Proof.
  unfold present. open_action. unfold addTodoSchema.
  destruct (finish (todoTextSchema body)) as [v|issues] eqn:V.
  - destruct (todoTextSchema_success body V) as (-> & Hne & Hle).
    destruct (hd None (faults w)) eqn:F1; cbn [fst snd].
    + split; [intros [item H]; discriminate | intros (_ & _ & H & _); discriminate].
    + destruct (acceptsText pg (trim body)) eqn:A; cbn [fst snd].
      * cbn [id]. destruct (existsb _ (table w)) eqn:Fresh; cbn [fst snd].
        -- split; [intros [item H]; discriminate
                  | intros (_ & _ & _ & _ & H); discriminate].
        -- split; [intros _; now repeat split | intros _; eexists; reflexivity].
      * split; [intros [item H]; discriminate
               | intros (_ & _ & _ & H & _); discriminate].
  - cbn [fst snd]. split; [intros [item H]; discriminate|].
    intros (Hne & Hle & _).
    rewrite (todoTextSchema_accepts body Hne Hle) in V. discriminate.
Qed.

Lemma gone_after_filter (key : jsstring) (rows : list todoType) :
  existsb (hasId pg key) (filter (fun row => negb (hasId pg key row)) rows) = false.
Proof.
  induction rows as [|row rows IH]; [reflexivity|].
  cbn [filter]. destruct (hasId pg key row) eqn:E; cbn [negb]; [exact IH|].
  cbn [existsb]. now rewrite E.
Qed.

Lemma surjective_run {A} (r : A * world) : r = (fst r, snd r).
Proof. now destruct r. Qed.

(** X7. Deleting twice.  After a successful [deleteTodo] the table is the
    old one without the rows of that uuid, the others in the old order; a
    second [deleteTodo] of the same identifier, its existence check
    answered, fails with "Todo not found." and changes nothing. *)
Theorem delete_twice_reports_not_found (id : jsstring) (w w1 : world) :
  deleteTodo isUuid pg id w = (Success tt, w1) ->
  hd None (faults w1) = None ->
  table w1 = filter (fun row => negb (hasId pg id row)) (table w)
  /\ present pg id w1 = false
  /\ fst (deleteTodo isUuid pg id w1) = Failure "Todo not found."
  /\ table (snd (deleteTodo isUuid pg id w1)) = table w1.
Proof.
  intros D Up.
  pose proof (deleteTodo_table id w) as T. cbn zeta in T.
  pose proof (proj1 (deleteTodo_success_iff id w)) as I.
  rewrite D in T, I. cbn [fst snd] in T, I.
  destruct T as (T & _). destruct (I eq_refl) as (Ok & _).
  assert (Gone : present pg id w1 = false)
    by (unfold present; rewrite T; apply gone_after_filter).
  split; [exact T|]. split; [exact Gone|].
  unfold deleteTodo, deleteTodo_body, tryCatch, Db.bind.
  rewrite (validId_accepted isUuid id Ok), (@lookup_absent_run pg id w1 Up Gone).
  split; reflexivity.
Qed.

Lemma updated_rows (key : jsstring) (f : todoType -> todoType)
    (rows : list todoType) (row : todoType) :
  (forall r, id (f r) = id r) ->
  In row (updated pg key f rows) -> hasId pg key row = true ->
  exists old, In old rows /\ hasId pg key old = true /\ row = f old.
Proof.
  intros Keep Hin Hid. unfold updated in Hin. apply in_app_or in Hin.
  destruct Hin as [Hin | Hin].
  - apply filter_In in Hin. destruct Hin as [_ No]. now rewrite Hid in No.
  - apply in_map_iff in Hin. destruct Hin as (old & <- & Hold).
    apply filter_In in Hold. exists old. tauto.
Qed.

(** X8. Edit round-trip.  After a successful [editTodo], a listing that
    succeeds returns as many rows as before: the rows of that uuid (there
    is at least one) with the trimmed text, the others unchanged, [id] and
    [done] of every row as before.  The order of the listing is not
    promised. *)
Theorem edit_then_list_shows_trimmed_text (id body : jsstring)
    (w w1 w2 : world) (rows : list todoType) :
  editTodo isUuid pg id body w = (Success tt, w1) ->
  getData w1 = (Success rows, w2) ->
  Permutation rows
    (map (fun row => if hasId pg id row then withText (trim body) row else row)
       (table w))
  /\ (exists row, In row rows /\ hasId pg id row = true)
  /\ (forall row, In row rows -> hasId pg id row = true -> text row = trim body)
  /\ Permutation (map Db.id rows) (map Db.id (table w))
  /\ Permutation (map done rows) (map done (table w)).
Proof.
  intros E L.
  pose proof (editTodo_table id body w) as T. cbn zeta in T.
  pose proof (proj1 (editTodo_success_iff id body w)) as I.
  rewrite E in T, I. cbn [fst snd] in T, I.
  destruct T as (T & _). destruct (I eq_refl) as (_ & _ & _ & P & _).
  destruct (getData_success _ L) as (-> & _ & _).
  rewrite T. split; [apply updated_perm|]. split; [|split; [|split]].
  - unfold present in P. apply existsb_exists in P.
    destruct P as (old & Hin & Hid).
    exists (withText (trim body) old). split; [|exact Hid].
    unfold updated. apply in_or_app. right. apply in_map.
    apply filter_In. now split.
  - intros row Hin Hid.
    destruct (updated_rows id (withText (trim body)) (table w) row
                (fun r => eq_refl) Hin Hid) as (old & _ & _ & ->).
    reflexivity.
  - rewrite updated_perm, map_map.
    erewrite map_ext; [reflexivity|].
    intros row. now destruct (hasId pg id row).
  - rewrite updated_perm, map_map.
    erewrite map_ext; [reflexivity|].
    intros row. now destruct (hasId pg id row).
Qed.

(** Reads the statements of a run off the final world. *)
Ltac read_sent :=
  first
    [ rewrite issued_refl
    | erewrite issued_app
        by (cbn [statements]; rewrite <- ?app_assoc; reflexivity) ];
  cbn [app failures map console fst snd]; rewrite ?app_nil_r; try reflexivity.

(** X9. What reaches the console.  After any of the five actions the
    console holds, beyond what it held, one [console.error] line per
    statement that failed, under the label of the action; failures of
    validation and unknown identifiers log nothing. *)
Theorem console_holds_the_storage_failures (w : world) :
  console (snd (getData w))
  = console w
    ++ map (pair "Error fetching todos:"%string)
         (failures (issued w (snd (getData w))))
  /\ (forall body,
         let r := addTodo pg body w in
         console (snd r)
         = console w
           ++ map (pair "Error adding todo:"%string)
                (failures (issued w (snd r))))
  /\ (forall id body,
         let r := editTodo isUuid pg id body w in
         console (snd r)
         = console w
           ++ map (pair "Error editing todo:"%string)
                (failures (issued w (snd r))))
  /\ (forall id,
         let r := toggleTodo isUuid pg id w in
         console (snd r)
         = console w
           ++ map (pair "Error toggling todo:"%string)
                (failures (issued w (snd r))))
  /\ (forall id,
         let r := deleteTodo isUuid pg id w in
         console (snd r)
         = console w
           ++ map (pair "Error deleting todo:"%string)
                (failures (issued w (snd r)))).
Proof.
  split; [|split; [intros body | split; [intros key body | split; intros key]]];
    cbn zeta; open_action.
  - destruct (hd None (faults w)); cbn [fst snd]; read_sent.
  - destruct (finish (addTodoSchema body)); cbn [fst snd]; [|read_sent].
    destruct (hd None (faults w)); cbn [fst snd]; [read_sent|].
    destruct (acceptsText pg _); cbn [fst snd]; [|read_sent].
    destruct (existsb _ (table w)); cbn [fst snd]; read_sent.
  - destruct (finish (editTodoSchema isUuid key body)) as [[vi vt]|];
      cbn [fst snd]; [|read_sent].
    destruct (hd None (faults w)); cbn [fst snd]; [read_sent|].
    destruct (_ =? 0); cbn [fst snd]; [read_sent|].
    cbn [faults table generated].
    destruct (hd None (tl (faults w))); cbn [fst snd]; [read_sent|].
    destruct (acceptsText pg vt); cbn [fst snd]; read_sent.
  - destruct (finish (todoIdOnlySchema isUuid key)); cbn [fst snd]; [|read_sent].
    destruct (hd None (faults w)); cbn [fst snd]; [read_sent|].
    destruct (_ =? 0); cbn [fst snd]; [read_sent|].
    cbn [faults table generated].
    destruct (hd None (tl (faults w))); cbn [fst snd]; read_sent.
  - destruct (finish (todoIdOnlySchema isUuid key)); cbn [fst snd]; [|read_sent].
    destruct (hd None (faults w)); cbn [fst snd]; [read_sent|].
    destruct (_ =? 0); cbn [fst snd]; [read_sent|].
    cbn [faults table generated].
    destruct (hd None (tl (faults w))); cbn [fst snd]; read_sent.
Qed.

Ltac list_sent :=
  cbn [fst snd];
  first
    [ rewrite issued_refl
    | erewrite issued_app
        by (cbn [statements]; rewrite <- ?app_assoc; reflexivity) ];
  cbn [app map fst snd].

(** X10. Check, then act.  An identifier action sends nothing (validation
    failed), or the existence check alone, or the existence check followed
    by its one mutation, and the mutation only for a well-formed identifier
    whose uuid a row of the table has; [editTodo] writes the trimmed text.  [addTodo]
    sends at most its insert, of the trimmed text, and no existence check;
    [getData] sends its select. *)
Theorem statements_sent_by_the_actions (id body : jsstring) (w : world) :
  (let sent := map fst (issued w (snd (editTodo isUuid pg id body w))) in
   sent = [] \/ sent = [SelectById id]
   \/ (sent = [SelectById id; UpdateText id (trim body)]
       /\ isUuid id = true /\ present pg id w = true))
  /\ (let sent := map fst (issued w (snd (toggleTodo isUuid pg id w))) in
      sent = [] \/ sent = [SelectById id]
      \/ (sent = [SelectById id; UpdateNotDone id]
          /\ isUuid id = true /\ present pg id w = true))
  /\ (let sent := map fst (issued w (snd (deleteTodo isUuid pg id w))) in
      sent = [] \/ sent = [SelectById id]
      \/ (sent = [SelectById id; DeleteById id]
          /\ isUuid id = true /\ present pg id w = true))
  /\ (let sent := map fst (issued w (snd (addTodo pg body w))) in
      sent = [] \/ sent = [InsertReturning (trim body)])
  /\ map fst (issued w (snd (getData w))) = [SelectAll].
Proof.
  unfold present. cbn zeta.
  split; [|split; [|split; [|split]]]; open_action.
  - destruct (finish (editTodoSchema isUuid id body)) as [[vi vt]|] eqn:V;
      [|list_sent; now left].
    pose proof (finish_value _ V) as E. cbn in E. injection E as -> ->.
    assert (Ok : isUuid id = true).
    { unfold finish, editTodoSchema, todoIdSchema in V. cbn [fst snd] in V.
      destruct (isUuid id); [reflexivity | discriminate]. }
    destruct (hd None (faults w)); [list_sent; right; now left|].
    destruct (_ =? 0) eqn:L; [list_sent; right; now left|].
    apply lookup_found in L. cbn [faults table generated].
    destruct (hd None (tl (faults w)));
      [|destruct (acceptsText pg (trim body))];
      list_sent; right; right; now repeat split.
  - destruct (finish (todoIdOnlySchema isUuid id)) as [v|] eqn:V;
      [|list_sent; now left].
    destruct (todoIdOnly_success isUuid _ V) as [-> Ok].
    destruct (hd None (faults w)); [list_sent; right; now left|].
    destruct (_ =? 0) eqn:L; [list_sent; right; now left|].
    apply lookup_found in L. cbn [faults table generated].
    destruct (hd None (tl (faults w))); list_sent; right; right; now repeat split.
  - destruct (finish (todoIdOnlySchema isUuid id)) as [v|] eqn:V;
      [|list_sent; now left].
    destruct (todoIdOnly_success isUuid _ V) as [-> Ok].
    destruct (hd None (faults w)); [list_sent; right; now left|].
    destruct (_ =? 0) eqn:L; [list_sent; right; now left|].
    apply lookup_found in L. cbn [faults table generated].
    destruct (hd None (tl (faults w))); list_sent; right; right; now repeat split.
  - unfold addTodoSchema.
    destruct (finish (todoTextSchema body)) as [v|] eqn:V;
      [|list_sent; now left].
    destruct (todoTextSchema_success body V) as (-> & _ & _).
    destruct (hd None (faults w)); [list_sent; now right|].
    destruct (acceptsText pg (trim body)); [|list_sent; now right].
    destruct (existsb _ (table w)); list_sent; now right.
  - destruct (hd None (faults w)); list_sent; reflexivity.
Qed.

End ActionLaws.

(* ------------------------------------------------------------------ *)
(** ** The controller and the store *)

Lemma maps_agree_pointwise {A B} (f g : A -> B) (l : list A) (x : A) :
  map f l = map g l -> In x l -> f x = g x.
Proof.
  induction l as [|y l IH]; cbn [map In]; [intros _ []|].
  intros E [<-|Hin]; injection E as E1 E2; [exact E1 | now apply IH].
Qed.

Section ControllerLaws.

Variable isUuid : jsstring -> bool.
Variable pg : database.

Lemma filter_perm {A} (f : A -> bool) (l l' : list A) :
  Permutation l l' -> Permutation (filter f l) (filter f l').
Proof.
  induction 1 as [|x l l' P IH|x y l|l l' l'' P1 IH1 P2 IH2]; cbn [filter].
  - constructor.
  - destruct (f x); [now constructor | exact IH].
  - destruct (f x), (f y); try reflexivity. apply perm_swap.
  - now transitivity (filter f l').
Qed.

(** On rows that carry the database's spelling, an identifier in that
    spelling matches as a string exactly when it matches as a uuid. *)
Lemma stored_spelling_matches (key : jsstring) (rows : list todoType) :
  uuidText pg key = key -> canonicalIds pg rows ->
  forall row, In row rows -> hasId pg key row = JS.eqb (Db.id row) key.
Proof.
  intros K C row Hin. unfold canonicalIds in C. rewrite Forall_forall in C.
  unfold hasId. now rewrite (C row Hin), K.
Qed.

Lemma canonical_updated (key : jsstring) (f : todoType -> todoType)
    (rows : list todoType) :
  (forall r, Db.id (f r) = Db.id r) ->
  canonicalIds pg rows -> canonicalIds pg (updated pg key f rows).
Proof.
  unfold canonicalIds. rewrite !Forall_forall. intros Keep C row Hin.
  unfold updated in Hin. apply in_app_or in Hin. destruct Hin as [Hin|Hin].
  - apply filter_In in Hin. now apply C.
  - apply in_map_iff in Hin. destruct Hin as (old & <- & Hold).
    apply filter_In in Hold. rewrite Keep. now apply C.
Qed.

Lemma canonical_filter (f : todoType -> bool) (rows : list todoType) :
  canonicalIds pg rows -> canonicalIds pg (filter f rows).
Proof.
  unfold canonicalIds. rewrite !Forall_forall. intros C row Hin.
  apply filter_In in Hin. now apply C.
Qed.

(** The update the client applies by string and the one the store applies
    by uuid leave the same rows. *)
Lemma client_update_follows (key : jsstring) (f : todoType -> todoType)
    (todos rows : list todoType) :
  uuidText pg key = key -> canonicalIds pg rows -> Permutation todos rows ->
  Permutation
    (map (fun todo => if JS.eqb (Db.id todo) key then f todo else todo) todos)
    (updated pg key f rows).
Proof.
  intros K C P. rewrite updated_perm.
  rewrite (Permutation_map _ P).
  erewrite map_ext_in; [reflexivity|].
  intros row Hin. cbn beta.
  now rewrite (@stored_spelling_matches key _ K C row Hin).
Qed.

Lemma client_filter_follows (key : jsstring) (todos rows : list todoType) :
  uuidText pg key = key -> canonicalIds pg rows -> Permutation todos rows ->
  Permutation
    (filter (fun todo => negb (JS.eqb (Db.id todo) key)) todos)
    (filter (fun row => negb (hasId pg key row)) rows).
Proof.
  intros K C P. rewrite (filter_perm _ P).
  erewrite filter_ext_in; [reflexivity|].
  intros row Hin. cbn beta.
  now rewrite (@stored_spelling_matches key _ K C row Hin).
Qed.

(** One call of the controller from the current render: if the collection
    holds the rows of the table before, it holds them after, whether the
    action succeeded or failed. *)
Lemma collection_follows_table (p : page (list todoType)) (i : Session.intent) :
  (forall n, uuidText pg (gen_random_uuid pg n) = gen_random_uuid pg n) ->
  canonicalIds pg (table (server p)) ->
  Permutation (state p) (table (server p)) ->
  Session.typedTrimmed i -> Session.spelledAsStored pg i ->
  let q := Session.perform isUuid pg p i in
  Permutation (state q) (table (server q))
  /\ canonicalIds pg (table (server q)).
Proof.
  intros G C P Tr K. cbn zeta.
  destruct i as [body | key body | key | key];
    cbn [Session.perform Session.typedTrimmed Session.spelledAsStored] in *.
  - pose proof (addTodo_table pg body (server p)) as T.
    cbn zeta in T. unfold createTodo, await.
    destruct (addTodo pg body (server p)) as [[item|e] w'];
      cbn [fst snd] in T; unfold setStateWith, onError;
      cbn [server state timeline].
    + destruct T as (T & I & _). rewrite T. split.
      * now apply Permutation_app_tail.
      * unfold canonicalIds. apply Forall_app. split; [exact C|].
        constructor; [|constructor]. rewrite I. cbn [Db.id]. apply G.
    + destruct T as (T & _). rewrite T. now split.
  - pose proof (editTodo_table isUuid pg key body (server p)) as T.
    cbn zeta in T. unfold changeTodoText, await, setStateWith.
    cbn [server state timeline].
    destruct (editTodo isUuid pg key body (server p)) as [[u|e] w'];
      cbn [fst snd] in T; destruct T as (T & _);
      unfold onError, setStateTo; cbn [server state timeline]; rewrite T.
    + rewrite Tr. split.
      * now apply client_update_follows.
      * now apply canonical_updated.
    + now split.
  - pose proof (toggleTodo_table isUuid pg key (server p)) as T.
    cbn zeta in T. unfold toggleIsTodoDone, await, setStateWith.
    cbn [server state timeline].
    destruct (toggleTodo isUuid pg key (server p)) as [[u|e] w'];
      cbn [fst snd] in T; destruct T as (T & _);
      unfold onError, setStateTo; cbn [server state timeline]; rewrite T.
    + split.
      * now apply client_update_follows.
      * now apply canonical_updated.
    + now split.
  - pose proof (deleteTodo_table isUuid pg key (server p)) as T.
    cbn zeta in T. unfold deleteTodoItem, await, setStateWith.
    cbn [server state timeline].
    destruct (deleteTodo isUuid pg key (server p)) as [[u|e] w'];
      cbn [fst snd] in T; destruct T as (T & _);
      unfold onError, setStateTo; cbn [server state timeline]; rewrite T.
    + split.
      * now apply client_filter_follows.
      * now apply canonical_filter.
    + now split.
Qed.

(** X11. Editing keeps the text as typed.  After a successful
    [changeTodoText] from the current render, the collection carries, in
    the rows whose identifier is that very string, the text exactly as
    passed in, while the table carries its trim in the rows of that uuid,
    and holds otherwise the rows it held.  When the collection held the
    rows of the table, each identifier in the database's spelling, and the
    identifier passed is in that spelling too, the collection holds the
    rows of the table afterwards exactly when trimming leaves the text
    alone. *)
Theorem edited_text_is_kept_as_typed (p : page (list todoType))
    (id body : jsstring) (w' : world) :
  editTodo isUuid pg id body (server p) = (Success tt, w') ->
  let q := changeTodoText isUuid pg (state p) id body p in
  state q
  = map (fun todo => if JS.eqb (Db.id todo) id then withText body todo else todo)
      (state p)
  /\ Permutation (table (server q))
       (map (fun row => if hasId pg id row then withText (trim body) row else row)
          (table (server p)))
  /\ (Permutation (state p) (table (server p)) ->
      canonicalIds pg (table (server p)) ->
      uuidText pg id = id ->
      (Permutation (state q) (table (server q)) <-> trim body = body)).
Proof.
  intros E. cbn zeta.
  pose proof (editTodo_table isUuid pg id body (server p)) as T. cbn zeta in T.
  pose proof (proj1 (editTodo_success_iff isUuid pg id body (server p))) as I.
  rewrite E in T, I. cbn [fst snd] in T, I.
  destruct T as (T & _). destruct (I eq_refl) as (_ & _ & _ & Pr & _).
  unfold changeTodoText, await, setStateWith. cbn [server state timeline].
  rewrite E. cbn [server state].
  split; [reflexivity|]. split; [rewrite T; apply updated_perm|].
  intros P C K. rewrite T. split.
  - intros M.
    unfold present in Pr. apply existsb_exists in Pr.
    destruct Pr as (row & Hin & Hid).
    assert (Hin' : In (withText body row)
                     (updated pg id (withText (trim body)) (table (server p)))).
    { apply (Permutation_in _ M), in_map_iff.
      exists row. rewrite <- (@stored_spelling_matches id _ K C row Hin), Hid.
      split; [reflexivity|].
      now apply (Permutation_in _ (Permutation_sym P)). }
    assert (Hid' : hasId pg id (withText body row) = true) by exact Hid.
    destruct (updated_rows isUuid pg id (withText (trim body)) (table (server p))
                (withText body row) (fun r => eq_refl) Hin' Hid')
      as (old & _ & _ & R).
    unfold withText in R. now injection R.
  - intros Tr. rewrite Tr. now apply client_update_follows.
Qed.

(** X12. The collection follows the table through a session.  Start with
    a collection that holds the rows of the table, as the page mounts it,
    and let the user create, edit, toggle and delete, one call after the
    other, in any number and order, some succeeding and some failing.
    Provided the database hands out and stores identifiers in the spelling
    it prints, the calls pass identifiers in that spelling, and the edits
    pass texts that trimming leaves alone, the collection holds at the end
    the rows of the table, each as often as the table does, and the table
    still carries that spelling. *)
Theorem session_collection_follows_table (intents : list Session.intent)
    (p : page (list todoType)) :
  (forall n, uuidText pg (gen_random_uuid pg n) = gen_random_uuid pg n) ->
  canonicalIds pg (table (server p)) ->
  Permutation (state p) (table (server p)) ->
  Forall Session.typedTrimmed intents ->
  Forall (Session.spelledAsStored pg) intents ->
  let q := Session.run isUuid pg intents p in
  Permutation (state q) (table (server q))
  /\ canonicalIds pg (table (server q)).
Proof.
  intros G. cbn zeta. revert p.
  induction intents as [|i intents IH]; intros p C P F K; [now split|].
  inversion F as [|? ? Fi Frest]; subst.
  inversion K as [|? ? Ki Krest]; subst.
  unfold Session.run. cbn [fold_left].
  destruct (collection_follows_table p i G C P Fi Ki) as [P' C'].
  now apply IH.
Qed.

(** X13. [performOptimisticUpdate], case by case.  When the server action
    reports success the optimistic value stays and nothing is reported.
    When it reports failure the snapshot is put back, and [onError] is
    called exactly when it was supplied and the answer carries a non-empty
    error: a failure without a message rolls back silently. *)
Theorem optimistic_update_outcomes (T : Type) (q : page T) (hasOnError : bool)
    (update : T -> T) (serverAction : Settled (bool * option string)) :
  let answer := fst (serverAction (server q)) in
  let q' := performOptimisticUpdate (state q) hasOnError update serverAction q in
  server q' = snd (serverAction (server q))
  /\ state q' = (if fst answer then update (state q) else state q)
  /\ timeline q'
     = timeline q
       ++ [SetState (update (state q)); Invoke CallServerAction]
       ++ (if fst answer then []
           else SetState (state q)
                :: match snd answer with
                   | Some error =>
                       if hasOnError && nonEmpty error
                       then [Report error] else []
                   | None => []
                   end).
Proof.
  cbn zeta. unfold performOptimisticUpdate, await, setStateWith.
  cbn [server state timeline].
  destruct (serverAction (server q)) as [[ok err] w']. cbn [fst snd].
  destruct ok; cbn [negb].
  - cbn [server state timeline]. rewrite <- app_assoc. now repeat split.
  - destruct err as [err|]; [destruct (hasOnError && nonEmpty err)|];
      unfold onError, setStateTo; cbn [server state timeline];
      rewrite <- ?app_assoc; now repeat split.
Qed.

(** The handlers of [useTodos] are their two phases around the [await]. *)
Lemma handlers_in_phases (todos : list todoType) (id body : jsstring)
    (p : page (list todoType)) :
  changeTodoText isUuid pg todos id body p
  = (let a := await (CallEditTodo id body) (editTodo isUuid pg id body)
                (Phases.begin
                   (map (fun todo => if JS.eqb (Db.id todo) id
                                     then withText body todo else todo)) p) in
     Phases.settle todos (fst a) (snd a))
  /\ toggleIsTodoDone isUuid pg todos id p
     = (let a := await (CallToggleTodo id) (toggleTodo isUuid pg id)
                   (Phases.begin
                      (map (fun todo => if JS.eqb (Db.id todo) id
                                        then notDone todo else todo)) p) in
        Phases.settle todos (fst a) (snd a))
  /\ deleteTodoItem isUuid pg todos id p
     = (let a := await (CallDeleteTodo id) (deleteTodo isUuid pg id)
                   (Phases.begin
                      (filter (fun todo => negb (JS.eqb (Db.id todo) id))) p) in
        Phases.settle todos (fst a) (snd a)).
Proof.
  unfold changeTodoText, toggleIsTodoDone, deleteTodoItem, Phases.begin,
    Phases.settle, await.
  cbn zeta. cbn [setStateWith server state timeline].
  repeat split.
  - now destruct (editTodo isUuid pg id body (server p)) as [[u|e] w'].
  - now destruct (toggleTodo isUuid pg id (server p)) as [[u|e] w'].
  - now destruct (deleteTodo isUuid pg id (server p)) as [[u|e] w'].
Qed.

(** X14. Overlapping calls.  A toggle of [idA] starts, and before its
    answer is back a delete of [idB] starts from the next render.  The
    toggle fails and rolls back, then the delete succeeds.  The collection
    ends as it was before either call, so it still shows the rows of [idB],
    while the table has lost them: the rollback of the first call discards
    the optimistic update of the second. *)
Theorem overlapping_rollback_discards_later_update
    (p : page (list todoType)) (idA idB : jsstring) (e : string) :
  let pA := Phases.begin
              (map (fun todo => if JS.eqb (Db.id todo) idA
                                then notDone todo else todo)) p in
  let pB := Phases.begin
              (filter (fun todo => negb (JS.eqb (Db.id todo) idB))) pA in
  let a := await (CallToggleTodo idA) (toggleTodo isUuid pg idA) pB in
  let afterA := Phases.settle (state p) (fst a) (snd a) in
  let b := await (CallDeleteTodo idB) (deleteTodo isUuid pg idB) afterA in
  let afterB := Phases.settle (state pA) (fst b) (snd b) in
  fst a = Failure e ->
  fst b = Success tt ->
  state afterB = state p
  /\ table (server afterB)
     = filter (fun row => negb (hasId pg idB row)) (table (server p))
  /\ present pg idB (server afterB) = false.
Proof.
  cbn zeta. unfold Phases.begin, await, setStateWith.
  cbn [server state timeline].
  pose proof (toggleTodo_table isUuid pg idA (server p)) as TA. cbn zeta in TA.
  destruct (toggleTodo isUuid pg idA (server p)) as [rA wA].
  cbn [fst snd] in TA |- *. intros FA. subst rA. destruct TA as (TA & _).
  cbn [Phases.settle]. unfold onError, setStateTo.
  cbn [server state timeline].
  pose proof (deleteTodo_table isUuid pg idB wA) as TB. cbn zeta in TB.
  destruct (deleteTodo isUuid pg idB wA) as [rB wB].
  cbn [fst snd] in TB |- *. intros FB. subst rB. destruct TB as (TB & _).
  cbn [Phases.settle server state].
  split; [reflexivity|]. rewrite TB, TA. split; [reflexivity|].
  unfold present. rewrite TB. apply gone_after_filter.
Qed.

Lemma reports_app {T} (l1 l2 : list (event T)) :
  Refactored.reports (l1 ++ l2)
  = Refactored.reports l1 ++ Refactored.reports l2.
Proof.
  induction l1 as [|[c|next|message] l1 IH]; cbn [app Refactored.reports];
    now rewrite ?IH.
Qed.

Lemma shown_app (l1 l2 : list string) (st : errorState) :
  Refactored.shown (l1 ++ l2) st = Refactored.shown l2 (Refactored.shown l1 st).
Proof. apply fold_left_app. Qed.

(** Settles one handler of the two components side by side. *)
Ltac side_by_side :=
  cbn [Todos.srv Todos.todoItems Todos.toast server state timeline];
  rewrite ?reports_app, ?shown_app;
  cbn [Refactored.reports Refactored.shown fold_left app];
  repeat split; try congruence;
  match goal with
  | H : Todos.toast _ = _ |- _ => rewrite H; reflexivity
  end.

(** X15. The refactoring keeps the behaviour.  If the [Todos] component
    and the refactored one ([useTodos] with the [showError] of
    [useError()]) agree on server, collection and toast, they agree again
    after the same handler has run in both, for each of [createTodo],
    [changeTodoText], [toggleIsTodoDone] and [deleteTodoItem]. *)
Theorem refactored_component_agrees (st0 : errorState) (c : Todos.component)
    (p : page (list todoType)) (todos : list todoType) (id body : jsstring) :
  Refactored.agrees st0 c p ->
  Refactored.agrees st0 (Todos.createTodo pg body c)
    (createTodo pg body p)
  /\ Refactored.agrees st0 (Todos.changeTodoText isUuid pg todos id body c)
       (changeTodoText isUuid pg todos id body p)
  /\ Refactored.agrees st0 (Todos.toggleIsTodoDone isUuid pg todos id c)
       (toggleIsTodoDone isUuid pg todos id p)
  /\ Refactored.agrees st0 (Todos.deleteTodoItem isUuid pg todos id c)
       (deleteTodoItem isUuid pg todos id p).
Proof.
  unfold Refactored.agrees. intros (S & I & E).
  split; [|split; [|split]].
  - unfold Todos.createTodo, createTodo, Todos.await, await. rewrite S.
    destruct (addTodo pg body (server p)) as [[item|e] w'];
      unfold Todos.setTodoItems, Todos.showError, setStateWith, onError;
      side_by_side.
  - unfold Todos.changeTodoText, changeTodoText, Todos.await, await,
      Todos.setTodoItems, setStateWith.
    cbn [Todos.srv Todos.todoItems Todos.toast server state timeline].
    rewrite S.
    destruct (editTodo isUuid pg id body (server p)) as [[u|e] w'];
      unfold Todos.showError, onError, setStateTo; side_by_side.
  - unfold Todos.toggleIsTodoDone, toggleIsTodoDone, Todos.await, await,
      Todos.setTodoItems, setStateWith.
    cbn [Todos.srv Todos.todoItems Todos.toast server state timeline].
    rewrite S.
    destruct (toggleTodo isUuid pg id (server p)) as [[u|e] w'];
      unfold Todos.showError, onError, setStateTo; side_by_side.
  - unfold Todos.deleteTodoItem, deleteTodoItem, Todos.await, await,
      Todos.setTodoItems, setStateWith.
    cbn [Todos.srv Todos.todoItems Todos.toast server state timeline].
    rewrite S.
    destruct (deleteTodo isUuid pg id (server p)) as [[u|e] w'];
      unfold Todos.showError, onError, setStateTo; side_by_side.
Qed.

End ControllerLaws.

(** X16. What the page mounts.  [Home] renders the list of all rows of the
    table when its one select goes through, and otherwise the error panel
    with the fixed message of [getData], whatever the error said; it never
    changes the table. *)
Theorem home_lists_the_table (w : world) :
  fst (Todos.Home w)
  = match hd None (faults w) with
    | None => Todos.TodosList (table w)
    | Some _ =>
        Todos.ErrorPanel "Unable to load todos. Please try again later."
    end
  /\ table (snd (Todos.Home w)) = table w
  /\ (forall f, fst (Todos.Home (reworded f w)) = fst (Todos.Home w)).
Proof.
  unfold Todos.Home. open_action. cbn [faults table reworded].
  destruct (faults w) as [|[e|] rest]; cbn [hd map option_map];
    repeat split.
Qed.

(* ------------------------------------------------------------------ *)
(** ** The error display over time *)

Lemma due_later (t1 t2 due : N) :
  (t1 <= t2)%N -> (due <=? t1)%N = true -> (due <=? t2)%N = true.
Proof.
  intros L D. apply N.leb_le in D. apply N.leb_le. lia.
Qed.

Lemma pending_after_two_waits (t1 t2 : N) (l : list N) :
  (t1 <= t2)%N ->
  filter (fun due => negb (due <=? t2)%N)
    (filter (fun due => negb (due <=? t1)%N) l)
  = filter (fun due => negb (due <=? t2)%N) l.
Proof.
  intros L. induction l as [|due l IH]; [reflexivity|].
  cbn [filter]. destruct (due <=? t1)%N eqn:D; cbn [negb].
  - rewrite (@due_later t1 t2 due L D). cbn [negb]. exact IH.
  - cbn [filter]. now rewrite IH.
Qed.

Lemma fired_after_two_waits (t1 t2 : N) (l : list N) :
  (t1 <= t2)%N ->
  existsb (fun due => (due <=? t2)%N) l
  = existsb (fun due => (due <=? t1)%N) l
    || existsb (fun due => (due <=? t2)%N)
         (filter (fun due => negb (due <=? t1)%N) l).
Proof.
  intros L. induction l as [|due l IH]; [reflexivity|].
  cbn [existsb filter]. destruct (due <=? t1)%N eqn:D; cbn [negb orb].
  - now rewrite (@due_later t1 t2 due L D).
  - cbn [existsb]. rewrite IH.
    destruct (due <=? t2)%N; cbn [orb]; [now rewrite orb_true_r|reflexivity].
Qed.

(** X17. Waiting composes.  Letting [a] milliseconds pass and then [b]
    more leaves the hook where letting [a + b] pass at once does: the same
    message on display, the same callbacks pending, the same clock. *)
Theorem elapse_composes (a b : N) (st : errorState) :
  elapse b (elapse a st) = elapse (a + b) st.
Proof.
  unfold elapse. cbn [Hooks.error timers now].
  assert (L : (now st + a <= now st + a + b)%N) by lia.
  rewrite (@pending_after_two_waits _ _ (timers st) L).
  replace (now st + (a + b))%N with (now st + a + b)%N by lia.
  rewrite (@fired_after_two_waits _ _ (timers st) L).
  f_equal.
  destruct (existsb (fun due => (due <=? now st + a)%N) (timers st));
    cbn [orb]; [|reflexivity].
  now destruct (existsb _ (filter _ (timers st))).
Qed.

Lemma none_due_iff (t : N) (l : list N) :
  existsb (fun due => (due <=? t)%N) l
  = negb (forallb (fun due => (t <? due)%N) l).
Proof.
  induction l as [|due l IH]; [reflexivity|].
  cbn [existsb forallb]. rewrite IH, negb_andb. f_equal.
  rewrite N.ltb_antisym. now rewrite negb_involutive.
Qed.

(** X18. How long a report stays.  [setTimeout] reads the delay as a
    signed 32-bit number of milliseconds: a delay up to 2^31 - 1 is taken
    as it is, and one above that and below 2^32 as 0.  After [showError],
    with no further call, the message is on display [ms] milliseconds later
    exactly when [ms] is below the delay of its timer and no callback armed
    by an earlier report has come due by then; otherwise the display is
    empty.  So with a delay up to 2^31 - 1 a message never outlives its
    delay, and an earlier report can cut it short; with a delay from 2^31
    up to 2^32 - 1 the message is cleared at once. *)
Theorem reported_error_lifetime (dismissAfter ms : N) (message : string)
    (st : errorState) :
  Hooks.error (elapse ms (showError dismissAfter message st))
  = (if (ms <? timerDelay dismissAfter)%N
        && forallb (fun due => (now st + ms <? due)%N) (timers st)
     then Some message else None)
  /\ ((dismissAfter <= 2147483647)%N -> timerDelay dismissAfter = dismissAfter)
  /\ ((2147483647 < dismissAfter < 4294967296)%N ->
      Hooks.error (elapse ms (showError dismissAfter message st)) = None).
Proof.
  assert (L : Hooks.error (elapse ms (showError dismissAfter message st))
              = (if (ms <? timerDelay dismissAfter)%N
                    && forallb (fun due => (now st + ms <? due)%N) (timers st)
                 then Some message else None)).
  { unfold elapse, showError. cbn [Hooks.error timers now].
    rewrite none_due_iff, forallb_app. cbn [forallb].
    rewrite andb_true_r, andb_comm.
    replace (now st + ms <? now st + timerDelay dismissAfter)%N
      with (ms <? timerDelay dismissAfter)%N.
    - now destruct ((ms <? timerDelay dismissAfter)%N && forallb _ (timers st)).
    - destruct (ms <? timerDelay dismissAfter)%N eqn:D; symmetry.
      + apply N.ltb_lt in D. apply N.ltb_lt. lia.
      + apply N.ltb_ge in D. apply N.ltb_ge. lia. }
  split; [exact L|]. split; [apply timerDelay_cases|].
  intros B. rewrite L, (proj2 (timerDelay_cases dismissAfter) B).
  now destruct ms.
Qed.

(* ------------------------------------------------------------------ *)
(** ** One add, from click to answer *)

(** X19. One add.  With no call in flight and an input that does not trim
    to empty, [handleAdd] calls [createTodo] once with the input exactly as
    typed (not trimmed) and turns loading on; until the answer, further
    clicks and key presses do nothing and the button is disabled; when the
    call resolves the input is cleared, when it rejects the input is kept,
    and in both cases loading is off again and no further call was made. *)
Theorem one_add_from_click_to_answer (c : component) :
  isLoading c = false ->
  trim (input c) <> [] ->
  let busy := handleAdd c in
  created busy = created c ++ [(input c, inFlight c)]
  /\ input busy = input c /\ isLoading busy = true
  /\ addDisabled busy = true
  /\ handleAdd busy = busy
  /\ (forall key, handleKeyPress key busy = busy)
  /\ (forall resolved,
        let idle := handleAdd_settled resolved busy in
        input idle = (if resolved then [] else input c)
        /\ isLoading idle = false
        /\ inFlight idle = inFlight c
        /\ created idle = created busy).
Proof.
  intros L Hne. cbn zeta.
  assert (B : handleAdd c
              = {| input := input c; isLoading := true;
                   inFlight := S (inFlight c);
                   created := created c ++ [(input c, inFlight c)] |}).
  { unfold handleAdd. rewrite L. cbn [orb].
    destruct (trim (input c)); [congruence | reflexivity]. }
  rewrite B. cbn [created input isLoading].
  repeat split.
  intros key. unfold handleKeyPress. cbn [isLoading negb].
  now rewrite andb_false_r.
Qed.

(* ------------------------------------------------------------------ *)
(** ** Uploads *)

Section UploadLaws.

Variable blob : Type.

(** X20. What [uploadFile] leaves behind.  It returns a blob exactly when
    the response was ok and its body parsed, and then stores that blob and
    shows no error.  In every other case it returns [null], shows an error
    message (for a response that is not ok, "Upload failed: " followed by
    the status text), and leaves the previously uploaded file in place.
    Either way [isUploading] ends false. *)
Theorem uploadFile_outcomes (f : Upload.fetched blob) (h : Upload.hook blob) :
  let r := Upload.uploadFile f h in
  Upload.isUploading (snd r) = false
  /\ (forall b, fst r = Some b
               <-> exists statusText, f = Upload.Responded true statusText (inr b))
  /\ (forall b, fst r = Some b ->
               Upload.uploadedFile (snd r) = Some b
               /\ Upload.error (snd r) = None)
  /\ (fst r = None ->
      Upload.uploadedFile (snd r) = Upload.uploadedFile h
      /\ exists message, Upload.error (snd r) = Some message)
  /\ (forall statusText json,
         f = Upload.Responded false statusText json ->
         Upload.error (snd r) = Some ("Upload failed: " ++ statusText)%string).
Proof.
  cbn zeta. unfold Upload.uploadFile, Upload.uploadFile_settled,
    Upload.uploadFile_start, Upload.received.
  destruct f as [err | [|] statusText [err|b']];
    cbn [negb fst snd Upload.isUploading Upload.uploadedFile Upload.error].
  all: split; [reflexivity|].
  all: split;
    [intros b; split;
       [intros H; try discriminate H
       |intros [s H]; try discriminate H]|].
  all: try (injection H as <-; now eexists).
  all: try (now injection H as _ <-).
  all: split; [intros b H; try discriminate H|].
  all: try (injection H as <-; now split).
  all: split; [intros H; try discriminate H|].
  all: try (split; [reflexivity | now eexists]).
  all: intros s j H; try discriminate H.
  all: now injection H as <- _.
Qed.

End UploadLaws.

(* ------------------------------------------------------------------ *)
(** ** Test helpers *)

(** X21. [mockActionResponse] answers a success exactly when it is asked
    for one and given data: asked for a success without data it answers a
    failure.  The failure carries the given error, or "Mock error" when
    none or an empty one is given. *)
Theorem mockActionResponse_outcomes (T : Type) (success : bool)
    (data : option T) (error : option string) :
  let r := TestUtils.mockActionResponse success data error in
  (forall d, r = Success d <-> (success = true /\ data = Some d))
  /\ ((success = false \/ data = None) ->
      r = Failure (match error with
                   | Some (String a e) => String a e
                   | _ => "Mock error"%string
                   end)).
Proof.
  cbn zeta. unfold TestUtils.mockActionResponse. split.
  - intros d. destruct success, data as [d'|]; split;
      try (intros H; discriminate H);
      try (intros [H1 H2]; discriminate).
    + intros H. injection H as <-. now split.
    + intros [_ H]. now injection H as <-.
  - intros [-> | ->]; [|destruct success];
      destruct error as [[|a e]|]; try reflexivity; now destruct data.
Qed.

(* ------------------------------------------------------------------ *)
(** ** The shape of an accepted text *)

Lemma trimStart_split (s : jsstring) :
  exists pre, s = pre ++ trimStart s /\ forallb isWhiteSpace pre = true.
Proof.
  induction s as [|c r (pre & E & W)]; [now exists []|].
  cbn [trimStart]. destruct (isWhiteSpace c) eqn:C.
  - exists (c :: pre). cbn [app forallb]. rewrite C, W. now rewrite <- E.
  - now exists [].
Qed.

Lemma trimEnd_split (s : jsstring) :
  exists post, s = trimEnd s ++ post /\ forallb isWhiteSpace post = true.
Proof.
  induction s as [|c r (post & E & W)]; [now exists []|].
  cbn [trimEnd]. destruct (trimEnd r) as [|x r'].
  - cbn [app] in E. subst post. destruct (isWhiteSpace c) eqn:C.
    + exists (c :: r). cbn [app forallb]. now rewrite C, W.
    + now exists r.
  - exists post. cbn [app] in *. now rewrite <- E.
Qed.

Lemma trimEnd_last (s : jsstring) :
  trimEnd s <> [] -> isWhiteSpace (last (trimEnd s) 0%N) = false.
Proof.
  induction s as [|c r IH]; [intros H; now contradiction H|].
  cbn [trimEnd]. destruct (trimEnd r) as [|x r'].
  - destruct (isWhiteSpace c) eqn:C; [intros H; now contradiction H|].
    intros _. exact C.
  - intros _. change (last (c :: x :: r') 0%N) with (last (x :: r') 0%N).
    apply IH. discriminate.
Qed.

(** X22. The shape of an accepted text.  When text validation accepts, the
    value it yields is the input with a run of whitespace removed at each
    end and nothing else changed; the value itself neither starts nor ends
    with whitespace and has between 1 and 500 code units. *)
Theorem accepted_text_shape (text v : jsstring) :
  finish (todoTextSchema text) = ParseSuccess v ->
  (exists pre post,
      text = pre ++ v ++ post
      /\ forallb isWhiteSpace pre = true
      /\ forallb isWhiteSpace post = true)
  /\ isWhiteSpace (hd 0%N v) = false
  /\ isWhiteSpace (last v 0%N) = false
  /\ 1 <= List.length v <= 500.
Proof.
  intros V. destruct (todoTextSchema_success text V) as (-> & Hne & Hle).
  destruct (trimStart_split text) as (pre & E1 & W1).
  destruct (trimEnd_split (trimStart text)) as (post & E2 & W2).
  split; [|split; [|split; [|split]]].
  - exists pre, post. fold (trim text) in E2. now rewrite <- E2.
  - unfold trim in *.
    destruct (trimStart_head text) as [E | (c & r & E & C)]; rewrite E in *.
    + now contradiction Hne.
    + destruct (trimEnd_keeps_head c r C) as [l ->]. exact C.
  - apply trimEnd_last. exact Hne.
  - destruct (trim text); [now contradiction Hne | cbn; lia].
  - exact Hle.
Qed.

(* ------------------------------------------------------------------ *)
(** ** The messages of validation *)

Lemma text_issues (body : jsstring) :
  snd (todoTextSchema body)
  = if List.length (trim body) =? 0
    then ["Todo text cannot be empty"%string]
    else if 500 <? List.length (trim body)
         then ["Todo text must be less than 500 characters"%string]
         else [].
Proof.
  unfold todoTextSchema, max_text_length. cbn [snd].
  destruct (trim body) as [|c r]; [reflexivity|].
  cbn [List.length Nat.eqb]. replace (S (List.length r) <? 1) with false
    by (symmetry; apply Nat.ltb_ge; lia).
  reflexivity.
Qed.

Lemma finish_issues {A} (r : A * list string) :
  snd r <> [] -> finish r = ParseError (snd r).
Proof.
  unfold finish. destruct (snd r); [intros H; now contradiction H | reflexivity].
Qed.

Section ValidationMessages.

Variable isUuid : jsstring -> bool.
Variable pg : database.

(** X23. The messages of validation.  A text has at most one issue: empty
    once trimmed, or else longer than 500 code units.  [addTodo] answers
    that message; [editTodo] answers the identifier message, the text
    message, or both joined by a comma with the identifier first;
    [toggleTodo] and [deleteTodo] answer the identifier message. *)
Theorem validation_messages (id body : jsstring) (w : world) :
  let idIssue :=
    if isUuid id then [] else ["Todo ID must be a valid UUID"%string] in
  let textIssue :=
    if List.length (trim body) =? 0
    then ["Todo text cannot be empty"%string]
    else if 500 <? List.length (trim body)
         then ["Todo text must be less than 500 characters"%string]
         else [] in
  (textIssue <> [] ->
   fst (addTodo pg body w) = Failure (String.concat ", " textIssue))
  /\ (idIssue ++ textIssue <> [] ->
      fst (editTodo isUuid pg id body w)
      = Failure (String.concat ", " (idIssue ++ textIssue)))
  /\ (idIssue <> [] ->
      fst (toggleTodo isUuid pg id w) = Failure "Todo ID must be a valid UUID"
      /\ fst (deleteTodo isUuid pg id w) = Failure "Todo ID must be a valid UUID").
Proof.
  cbn zeta. rewrite <- (text_issues body).
  split; [|split].
  - intros Bad. unfold addTodo, addTodo_body, tryCatch, addTodoSchema.
    now rewrite (finish_issues (todoTextSchema body) Bad).
  - intros Bad. unfold editTodo, editTodo_body, tryCatch.
    assert (V : finish (editTodoSchema isUuid id body)
                = ParseError ((if isUuid id then []
                               else ["Todo ID must be a valid UUID"%string])
                              ++ snd (todoTextSchema body))).
    { apply (finish_issues (editTodoSchema isUuid id body)).
      unfold editTodoSchema, todoIdSchema. cbn [fst snd]. exact Bad. }
    now rewrite V.
  - intros Bad. destruct (isUuid id) eqn:Ok; [now contradiction Bad|].
    unfold toggleTodo, toggleTodo_body, deleteTodo, deleteTodo_body, tryCatch.
    assert (V : finish (todoIdOnlySchema isUuid id)
                = ParseError ["Todo ID must be a valid UUID"%string]).
    { unfold finish, todoIdOnlySchema, todoIdSchema. cbn [fst snd].
      now rewrite Ok. }
    rewrite V. now split.
Qed.

End ValidationMessages.

(* ------------------------------------------------------------------ *)
(** ** The further properties on concrete worlds *)

Lemma milk_is_well_formed : wellFormedText (text milk).
Proof.
  repeat split; [discriminate | unfold max_text_length; cbn; lia].
Qed.

Lemma actions_keep_ids_unique_witness :
  uniqueIds (table milkWorld)
  /\ uniqueIds (table (snd (addTodo postgres (lit "Walk dog") milkWorld)))
  /\ uniqueIds (table (snd (deleteTodo uuidFormat postgres milkId milkWorld))).
Proof.
  assert (U : uniqueIds (table milkWorld))
    by (repeat constructor; intros []).
  destruct (@actions_keep_ids_unique uuidFormat postgres milkWorld U) as (_ & A & _ & _ & D).
  split; [exact U|]. split; [apply A | apply D].
Defined.

Lemma actions_keep_texts_well_formed_witness :
  wellFormedRows (table milkWorld)
  /\ wellFormedRows
       (table (snd (editTodo uuidFormat postgres milkId (lit "  Buy oat milk ") milkWorld))).
Proof.
  assert (W : wellFormedRows (table milkWorld))
    by (constructor; [exact milk_is_well_formed | constructor]).
  destruct (@actions_keep_texts_well_formed uuidFormat postgres milkWorld W)
    as (_ & _ & E & _).
  split; [exact W | apply E].
Defined.

Lemma failed_action_leaves_table_witness :
  fst (toggleTodo uuidFormat postgres milkId (brokenWorld "ECONNRESET"))
  = Failure "Unable to update todo. Please try again."
  /\ table (snd (toggleTodo uuidFormat postgres milkId (brokenWorld "ECONNRESET")))
     = [milk].
Proof.
  split; [reflexivity|].
  apply (proj1 (proj2 (proj2
           (@failed_action_leaves_table uuidFormat postgres
              (brokenWorld "ECONNRESET")
              "Unable to update todo. Please try again.")))).
  reflexivity.
Defined.

Lemma delete_twice_reports_not_found_witness :
  let w1 := snd (deleteTodo uuidFormat postgres milkIdUpper pantryWorld) in
  deleteTodo uuidFormat postgres milkIdUpper pantryWorld = (Success tt, w1)
  /\ table w1 = [eggs]
  /\ fst (deleteTodo uuidFormat postgres milkIdUpper w1) = Failure "Todo not found.".
Proof.
  intros w1.
  assert (D : deleteTodo uuidFormat postgres milkIdUpper pantryWorld
              = (Success tt, w1)) by reflexivity.
  destruct (@delete_twice_reports_not_found uuidFormat postgres milkIdUpper
              pantryWorld w1 D eq_refl)
    as (T & _ & F & _).
  split; [exact D|]. split; [exact T | exact F].
Defined.

Lemma edit_then_list_shows_trimmed_text_witness :
  let w1 := snd (editTodo uuidFormat postgres milkIdUpper (lit "  Buy oat milk ")
                   pantryWorld) in
  let rows := [eggs; {| id := milkId; text := lit "Buy oat milk"; done := false |}] in
  editTodo uuidFormat postgres milkIdUpper (lit "  Buy oat milk ") pantryWorld
  = (Success tt, w1)
  /\ getData w1 = (Success rows, snd (getData w1))
  /\ Permutation rows
       [{| id := milkId; text := lit "Buy oat milk"; done := false |}; eggs]
  /\ (forall row, In row rows -> hasId postgres milkIdUpper row = true ->
      text row = lit "Buy oat milk")
  /\ Permutation (map done rows) [false; true].
Proof.
  intros w1 rows.
  assert (E : editTodo uuidFormat postgres milkIdUpper (lit "  Buy oat milk ")
                pantryWorld = (Success tt, w1)) by reflexivity.
  assert (L : getData w1 = (Success rows, snd (getData w1))) by reflexivity.
  destruct (@edit_then_list_shows_trimmed_text uuidFormat postgres milkIdUpper
              (lit "  Buy oat milk ") pantryWorld w1 _ _ E L)
    as (P & _ & T & _ & D).
  split; [exact E|]. split; [exact L|].
  split; [exact P|]. split; [exact T | exact D].
Defined.

Lemma draw_is_canonical (n : nat) : canonical (draw n) = draw n.
Proof.
  unfold draw, canonical. rewrite map_app. f_equal. cbn [map]. f_equal.
  unfold lowerHex.
  assert (B : n mod 10 < 10) by (apply Nat.mod_upper_bound; discriminate).
  replace (0x41 <=? N.of_nat (48 + n mod 10))%N with false; [reflexivity|].
  symmetry. apply N.leb_gt. lia.
Qed.

Lemma session_collection_follows_table_witness :
  let q := Session.run uuidFormat postgres
             [Session.Create (lit "  Walk dog "); Session.Toggle milkId;
              Session.Remove unknownId; Session.Edit milkId (lit "Buy oat milk");
              Session.Create (lit "   "); Session.Remove eggsId]
             pantryPage in
  Permutation (state q) (table (server q))
  /\ state q
     = [{| id := milkId; text := lit "Buy oat milk"; done := true |};
        {| id := draw 0; text := lit "Walk dog"; done := false |}]
  /\ table (server q)
     = [{| id := draw 0; text := lit "Walk dog"; done := false |};
        {| id := milkId; text := lit "Buy oat milk"; done := true |}].
Proof.
  intros q. split; [|split; reflexivity].
  apply (@session_collection_follows_table uuidFormat postgres _ pantryPage
           draw_is_canonical).
  - repeat constructor.
  - apply Permutation_refl.
  - repeat constructor.
  - repeat constructor.
Defined.

Lemma edited_text_is_kept_as_typed_witness :
  let q := changeTodoText uuidFormat postgres (state pantryPage) milkId
             (lit " Buy oat milk ") pantryPage in
  map text (state q) = [lit " Buy oat milk "; lit "Eggs"]
  /\ Permutation (map text (table (server q))) [lit "Buy oat milk"; lit "Eggs"]
  /\ ~ Permutation (state q) (table (server q)).
Proof.
  intros q.
  destruct (@edited_text_is_kept_as_typed uuidFormat postgres pantryPage milkId
              (lit " Buy oat milk ")
              (snd (editTodo uuidFormat postgres milkId (lit " Buy oat milk ")
                      pantryWorld)) eq_refl) as (S & T & I).
  fold q in S, T, I. split; [rewrite S; reflexivity|].
  split; [exact (Permutation_map text T)|].
  intros P.
  assert (C : canonicalIds postgres (table (server pantryPage)))
    by (repeat constructor).
  pose proof (proj1 (I (Permutation_refl _) C eq_refl) P) as Tr.
  discriminate Tr.
Defined.

Lemma overlapping_rollback_discards_later_update_witness :
  let pA := Phases.begin
              (map (fun todo => if JS.eqb (Db.id todo) milkId
                                then notDone todo else todo)) brokenPage in
  let pB := Phases.begin
              (filter (fun todo => negb (JS.eqb (Db.id todo) milkId))) pA in
  let a := await (CallToggleTodo milkId) (toggleTodo uuidFormat postgres milkId) pB in
  let afterA := Phases.settle (state brokenPage) (fst a) (snd a) in
  let b := await (CallDeleteTodo milkId) (deleteTodo uuidFormat postgres milkId) afterA in
  let afterB := Phases.settle (state pA) (fst b) (snd b) in
  state afterB = [milk] /\ table (server afterB) = [].
Proof.
  cbn zeta.
  destruct (@overlapping_rollback_discards_later_update uuidFormat postgres
              brokenPage milkId milkId "Unable to update todo. Please try again."
              eq_refl eq_refl) as (S & T & _).
  split; [exact S | exact T].
Defined.

Lemma identifier_actions_succeed_iff_witness :
  fst (toggleTodo uuidFormat postgres milkIdUpper milkWorld) = Success tt
  /\ fst (deleteTodo uuidFormat postgres unknownId milkWorld) <> Success tt
  /\ fst (editTodo uuidFormat postgres milkId [97%N; 0%N; 98%N] milkWorld)
     <> Success tt.
Proof.
  destruct (@identifier_actions_succeed_iff uuidFormat postgres milkIdUpper
              (lit "x") milkWorld) as (_ & T & _).
  destruct (@identifier_actions_succeed_iff uuidFormat postgres unknownId
              (lit "x") milkWorld) as (_ & _ & D).
  destruct (@identifier_actions_succeed_iff uuidFormat postgres milkId
              [97%N; 0%N; 98%N] milkWorld) as (E & _).
  split; [|split].
  - apply (proj2 T). repeat split.
  - intros H. apply (proj1 D) in H. destruct H as (_ & P & _). discriminate P.
  - intros H. apply (proj1 E) in H.
    destruct H as (_ & _ & _ & _ & _ & _ & A). discriminate A.
Defined.

Lemma addTodo_succeeds_iff_witness :
  (exists item, fst (addTodo postgres (lit "  Walk dog ") milkWorld) = Success item)
  /\ ~ (exists item,
          fst (addTodo postgres [97%N; 0%N; 98%N] milkWorld) = Success item).
Proof.
  split.
  - apply (proj2 (@addTodo_succeeds_iff postgres (lit "  Walk dog ") milkWorld)).
    repeat split; [discriminate | vm_compute; lia].
  - intros H.
    apply (proj1 (@addTodo_succeeds_iff postgres [97%N; 0%N; 98%N] milkWorld)) in H.
    destruct H as (_ & _ & _ & A & _). discriminate A.
Defined.

Lemma statements_sent_by_the_actions_witness :
  map fst (issued milkWorld
             (snd (toggleTodo uuidFormat postgres milkIdUpper milkWorld)))
  = [SelectById milkIdUpper; UpdateNotDone milkIdUpper]
  /\ map fst (issued milkWorld
                (snd (deleteTodo uuidFormat postgres unknownId milkWorld)))
     = [SelectById unknownId].
Proof.
  destruct (@statements_sent_by_the_actions uuidFormat postgres milkIdUpper
              (lit "x") milkWorld) as (_ & T & _).
  destruct (@statements_sent_by_the_actions uuidFormat postgres unknownId
              (lit "x") milkWorld) as (_ & _ & D & _).
  cbn zeta in T, D. split.
  - destruct T as [T | [T | (T & _)]]; [discriminate T | discriminate T | exact T].
  - destruct D as [D | [D | (D & _ & P)]];
      [discriminate D | exact D | discriminate P].
Defined.

Lemma refactored_component_agrees_witness :
  Refactored.agrees useError_initial
    (Todos.deleteTodoItem uuidFormat postgres [milk] unknownId
       (Todos.mount milkWorld [milk] 0))
    (deleteTodoItem uuidFormat postgres [milk] unknownId milkPage).
Proof.
  apply (@refactored_component_agrees uuidFormat postgres useError_initial
           (Todos.mount milkWorld [milk] 0) milkPage [milk] unknownId []).
  repeat split.
Defined.

Lemma reported_error_lifetime_witness :
  Hooks.error (elapse 4999 (showError 5000 "A" useError_initial))
  = Some "A"%string
  /\ Hooks.error (elapse 5000 (showError 5000 "A" useError_initial)) = None
  /\ Hooks.error (elapse 0 (showError 2147483648 "A" useError_initial)) = None.
Proof.
  split; [|split].
  - exact (eq_trans
             (proj1 (reported_error_lifetime 5000 4999 "A" useError_initial))
             eq_refl).
  - exact (eq_trans
             (proj1 (reported_error_lifetime 5000 5000 "A" useError_initial))
             eq_refl).
  - apply (proj2 (proj2 (reported_error_lifetime 2147483648 0 "A"
                           useError_initial))).
    lia.
Defined.

Lemma one_add_from_click_to_answer_witness :
  let c := handleInput (lit " a ") mount in
  created (handleAdd c) = [(lit " a ", 0)]
  /\ input (handleAdd_settled true (handleAdd c)) = []
  /\ input (handleAdd_settled false (handleAdd c)) = lit " a ".
Proof.
  intros c.
  assert (Hne : trim (input c) <> []) by discriminate.
  destruct (@one_add_from_click_to_answer c eq_refl Hne)
    as (C & _ & _ & _ & _ & _ & S).
  split; [exact C|]. split; [apply (S true) | apply (S false)].
Defined.

Lemma uploadFile_outcomes_witness :
  let h := {| Upload.uploadedFile := Some 3; Upload.isUploading := false;
              Upload.error := None |} in
  let r := Upload.uploadFile (Upload.Responded false "Payload Too Large" (inr 7)) h in
  fst r = None
  /\ Upload.uploadedFile (snd r) = Some 3
  /\ Upload.error (snd r) = Some "Upload failed: Payload Too Large"%string.
Proof.
  intros h r.
  destruct (@uploadFile_outcomes nat
              (Upload.Responded false "Payload Too Large" (inr 7)) h)
    as (_ & _ & _ & N & E).
  split; [reflexivity|]. split.
  - apply (proj1 (N eq_refl)).
  - apply (E "Payload Too Large"%string (inr 7)). reflexivity.
Defined.

Lemma mockActionResponse_outcomes_witness :
  TestUtils.mockActionResponse true (@None unit) None = Failure "Mock error"
  /\ TestUtils.mockActionResponse true (Some tt) (Some "ignored"%string)
     = Success tt.
Proof.
  split.
  - apply (proj2 (@mockActionResponse_outcomes unit true None None)).
    now right.
  - apply (proj1 (@mockActionResponse_outcomes unit true (Some tt)
                    (Some "ignored"%string)) tt).
    now split.
Defined.

Lemma accepted_text_shape_witness :
  lit "  Buy milk  " = lit "  " ++ lit "Buy milk" ++ lit "  "
  /\ isWhiteSpace (hd 0%N (lit "Buy milk")) = false
  /\ isWhiteSpace (last (lit "Buy milk") 0%N) = false.
Proof.
  destruct (@accepted_text_shape (lit "  Buy milk  ") (lit "Buy milk") eq_refl)
    as (_ & H & L & _).
  split; [reflexivity|]. split; [exact H | exact L].
Defined.

Lemma validation_messages_witness :
  fst (editTodo uuidFormat postgres (lit "999") (lit "  ") milkWorld)
  = Failure "Todo ID must be a valid UUID, Todo text cannot be empty"
  /\ fst (addTodo postgres (repeat 97%N 501) milkWorld)
     = Failure "Todo text must be less than 500 characters"
  /\ fst (deleteTodo uuidFormat postgres (lit "999") milkWorld)
     = Failure "Todo ID must be a valid UUID".
Proof.
  split; [|split].
  - apply (proj1 (proj2 (@validation_messages uuidFormat postgres (lit "999")
                           (lit "  ") milkWorld))).
    discriminate.
  - apply (proj1 (@validation_messages uuidFormat postgres (lit "999")
                    (repeat 97%N 501) milkWorld)).
    discriminate.
  - apply (proj2 (proj2 (@validation_messages uuidFormat postgres (lit "999")
                           (lit "  ") milkWorld))).
    discriminate.
Defined.
